(** * Price-Action-Zones: a shallow embedding of [zones.py]

    The pipeline of [zones.py] is

      get_candles -> generate_missing_candles -> generate_vol_per_trade
                  -> find_base_candles -> find_zones -> generate_chart
                                                        (append_zones loop)

    and this file embeds the pure part of it: [convert_timeframe] and the
    first lines of [get_candles], [generate_missing_candles],
    [find_base_candles], [find_zones], [append_zones] and the merging loop
    at the head of [generate_chart].

    Modelling conventions.
    - A pandas DataFrame is a list of rows.  Where the source reads a cell
      by LABEL ([data["col"][k]]) from a frame whose index is no longer a
      plain range (after [pd.concat]), the frame is a list of labelled rows
      and the lookup is by label ([at_label]).
    - Python exceptions are values of [exn]; code that can raise returns a
      [result].
    - Timestamps are integers of milliseconds ([Z]); they are stored as
      floats by [astype(float)], which is exact below 2^53.
    - Prices, volumes and momenta are rationals ([Q]), and stand for the
      finite floats of the frame; float comparison is exact.  The
      arithmetic of the classifier is float arithmetic: each operation is
      the exact one followed by the rounding [fl64] to binary64.
      [generate_vol_per_trade] only adds the column [volume_per_trade],
      which no later stage reads: the column is left out.
    - The frame given to [generate_missing_candles] is the documented frame
      of [get_candles]; its first statement drops four of its twelve
      columns (and raises KeyError on a frame without them), the model
      starts from the eight columns that are kept.
    - A Python [str] is a sequence of code points; [int()] is modelled on
      all of them, with the decimal digits of Unicode 14.0 and the default
      limit of 4300 digits.
    - [sort_values] is modelled by a stable insertion sort.  The default
      sort of pandas is not stable, so what is proved of the order of an
      output is proved up to permutation, or where the keys are distinct. *)

From Stdlib Require Import String Ascii.
From Stdlib Require Import List NArith ZArith QArith Qabs Qminmax Lia Bool Arith.
From Stdlib Require Import Sorting.Sorted Sorting.Permutation.
Import ListNotations.

Set Implicit Arguments.

(* ================================================================== *)
(** * Part I: definitions *)
(* ================================================================== *)

(** ** Python exceptions and the error monad *)

Inductive exn : Type :=
| KeyError
| ValueError
| IndexError
| ZeroDivisionError
| UnboundLocalError.

Inductive result (A : Type) : Type :=
| Ok (a : A)
| Raise (e : exn).

Arguments Ok {A} a.
Arguments Raise {A} e.

Definition bind {A B : Type} (m : result A) (k : A -> result B) : result B :=
  match m with
  | Ok a => k a
  | Raise e => Raise e
  end.

Declare Scope py_scope.
Delimit Scope py_scope with py.
Notation "x <- m ;; k" := (bind m (fun x => k))
  (at level 100, m at next level, right associativity) : py_scope.
Open Scope py_scope.

Fixpoint mapM {A B : Type} (f : A -> result B) (l : list A) : result (list B) :=
  match l with
  | [] => Ok []
  | a :: l' => b <- f a ;; bs <- mapM f l' ;; Ok (b :: bs)
  end.

Definition raises {A : Type} (m : result A) : bool :=
  match m with
  | Ok _ => false
  | Raise _ => true
  end.

(** ** Numbers *)

(** Python's [x < y] on two numbers. *)
Definition Qltb (x y : Q) : bool :=
  match x ?= y with
  | Lt => true
  | _ => false
  end.

(** Python's [sum(l)]: a left fold that starts from [0]. *)
Definition py_sum (l : list Q) : Q := fold_left Qplus l 0.

(** Python's [range(a, b)] for non-negative bounds. *)
Definition py_range (a b : nat) : list nat := seq a (b - a).

Definition Q_of_nat (n : nat) : Q := inject_Z (Z.of_nat n).

(** Python's [a % b] on integers: the result has the sign of [b]. *)
Definition py_mod (a b : Z) : result Z :=
  if (b =? 0)%Z then Raise ZeroDivisionError else Ok (a mod b)%Z.

(** ** Floating point *)

(** Rounding to the nearest binary64 number, ties to even: what an
    arithmetic operation on two floats does to its exact result.  [e] is
    the exponent of the value ([2^e <= |q| < 2^(e+1)]), [s] the exponent of
    its last place (53 significant bits, and never below [2^-1074]), [m]
    the rounded significand.  Overflow to infinity is not modelled. *)
Definition fl64 (q : Q) : Q :=
  let n := Qnum q in
  if (n =? 0)%Z then 0 else
  let a := Z.abs n in
  let d := Zpos (Qden q) in
  let k := (Z.log2 a - Z.log2 d)%Z in
  let below := if (0 <=? k)%Z then (a <? d * 2 ^ k)%Z else (a * 2 ^ (- k) <? d)%Z in
  let e := if below then (k - 1)%Z else k in
  let s := Z.max (e - 52) (-1074) in
  let num := if (0 <=? s)%Z then a else (a * 2 ^ (- s))%Z in
  let den := if (0 <=? s)%Z then (d * 2 ^ s)%Z else d in
  let q0 := (num / den)%Z in
  let r := (num mod den)%Z in
  let m := match (2 * r ?= den)%Z with
           | Lt => q0
           | Gt => (q0 + 1)%Z
           | Eq => if Z.even q0 then q0 else (q0 + 1)%Z
           end in
  let v := (Z.sgn n * m)%Z in
  if (0 <=? s)%Z then inject_Z (v * 2 ^ s) else Qmake v (Z.to_pos (2 ^ (- s))).

(** [x + y], [x - y], [x * y] and [x / y] on floats. *)
Definition fl_add (x y : Q) : Q := fl64 (x + y).
Definition fl_sub (x y : Q) : Q := fl64 (x - y).
Definition fl_mul (x y : Q) : Q := fl64 (x * y).
Definition fl_div (x y : Q) : Q := fl64 (x / y).

(** Python's [sum(l)] on numpy floats: a left fold of float additions that
    starts from the int [0]. *)
Definition np_sum (l : list Q) : Q := fold_left fl_add l 0.

(** A float that may not be finite. *)
Inductive np_float : Type :=
| Finite (q : Q)
| PosInf
| NegInf
| NaN.

(** [x > y] for a float [x] and a finite float [y]. *)
Definition np_gt (x : np_float) (y : Q) : bool :=
  match x with
  | Finite q => Qltb y q
  | PosInf => true
  | NegInf => false
  | NaN => false
  end.

(** Python's [range(a, b)] on integers. *)
Definition py_range_Z (a b : Z) : list Z :=
  map (fun k => (a + Z.of_nat k)%Z) (seq 0 (Z.to_nat (b - a))).

(** ** DataFrames *)

(** A frame whose rows carry their index label. *)
Definition Frame (R : Type) : Type := list (nat * R).

(** The index that [ignore_index=True] and [reset_index(drop=True)] give. *)
Definition range_index {R : Type} (rows : list R) : Frame R :=
  combine (seq 0 (length rows)) rows.

(** [data["col"][l]] used as a scalar: the label has to be there, and only
    once (a label that occurs twice selects a Series, whose truth value in
    an [if] raises ValueError). *)
Definition at_label {R : Type} (data : Frame R) (l : nat) : result R :=
  match filter (fun p => Nat.eqb (fst p) l) data with
  | [] => Raise KeyError
  | [p] => Ok (snd p)
  | _ :: _ :: _ => Raise ValueError
  end.

(** [data["col"][i]] on a frame with a range index. *)
Definition at_pos {R : Type} (rows : list R) (i : nat) : result R :=
  match nth_error rows i with
  | Some r => Ok r
  | None => Raise KeyError
  end.

(** [sort_values(by=..., ascending=True, ignore_index=True)], where
    [leb a b] compares the sort keys of two rows. *)
Fixpoint insert_by {A : Type} (leb : A -> A -> bool) (x : A) (l : list A) : list A :=
  match l with
  | [] => [x]
  | y :: l' => if leb x y then x :: y :: l' else y :: insert_by leb x l'
  end.

Definition sort_values {A : Type} (leb : A -> A -> bool) (l : list A) : list A :=
  fold_right (insert_by leb) [] l.

(** ** Candles and the normalizer *)

(** The columns that [generate_missing_candles] keeps, in its order. *)
Record Candle : Type := mkCandle {
  open_timestamp : Z;
  open : Q;
  high : Q;
  low : Q;
  close : Q;
  volume : Q;
  close_timestamp : Z;
  trades_number : Q
}.

Definition by_open_timestamp (a b : Candle) : bool :=
  (open_timestamp a <=? open_timestamp b)%Z.

(** The row built in the body of the loop of [generate_missing_candles]
    from the rows at labels [index - 1] and [index]. *)
Definition new_row (prev cur : Candle) : Candle :=
  let open_timestamp' := (close_timestamp prev + 1)%Z in
  let open_price := close prev in
  let close_price := open cur in
  let high_price := Qmax open_price close_price in
  let low_price := Qmin open_price close_price in
  let volume' := py_sum [volume prev; volume cur] / 2 in
  let close_timestamp' := (open_timestamp cur - 1)%Z in
  let trades_number' := py_sum [trades_number prev; trades_number cur] / 2 in
  mkCandle open_timestamp' open_price high_price low_price close_price
           volume' close_timestamp' trades_number'.

(** The loop [for index in range(1, len(data))]: [pd.concat] appends the
    new row under the label [0] of its own one-row frame. *)
Fixpoint gmc_loop (data : Frame Candle) (indices : list nat) : result (Frame Candle) :=
  match indices with
  | [] => Ok data
  | index :: rest =>
      prev <- at_label data (index - 1) ;;
      cur <- at_label data index ;;
      if negb (close_timestamp prev + 1 =? open_timestamp cur)%Z
      then gmc_loop (data ++ [(0%nat, new_row prev cur)]) rest
      else gmc_loop data rest
  end.

Definition generate_missing_candles (data : list Candle) : result (list Candle) :=
  data' <- gmc_loop (range_index data) (py_range 1 (length data)) ;;
  Ok (sort_values by_open_timestamp (map snd data')).

(** ** The classifier *)

Inductive CandleType : Type :=
| Momentum   (* "momentum" *)
| Base.      (* "base" *)

Definition is_base (t : CandleType) : bool :=
  match t with
  | Base => true
  | Momentum => false
  end.

(** A row of the classified frame: the candle with the two new columns. *)
Record Row : Type := mkRow {
  candle : Candle;
  candle_type : CandleType;
  momentum : Q
}.

Definition set_candle_type (t : CandleType) (r : Row) : Row :=
  mkRow (candle r) t (momentum r).

(** [data.at[index, "candle_type"] = t] on a label of the range index (the
    loop of the classifier sets no other label). *)
Fixpoint set_at (rows : list Row) (index : nat) (t : CandleType) : list Row :=
  match rows, index with
  | [], _ => []
  | r :: rows', O => set_candle_type t r :: rows'
  | r :: rows', S i => r :: set_at rows' i t
  end.

(** [data["col"][i]] for an int [i] on a frame with a range index: a label
    lookup, and a negative [i] is no label. *)
Definition at_index {R : Type} (rows : list R) (i : Z) : result R :=
  if (i <? 0)%Z then Raise KeyError else at_pos rows (Z.to_nat i).

(** [range(index - nocffz, index + nocffz + 1)] without [index]. *)
Definition neighbours (index nocffz : Z) : list Z :=
  filter (fun i => negb (i =? index)%Z)
         (py_range_Z (index - nocffz) (index + nocffz + 1)).

(** [sum(ms) / n] for the int [n]: the sum of no float is the int [0],
    which Python itself divides ([0 / 0] raises); a float is divided by
    numpy, where a division by zero gives an infinity or a NaN. *)
Definition np_mean (ms : list Q) (n : Z) : result np_float :=
  if (n =? 0)%Z
  then match ms with
       | [] => Raise ZeroDivisionError
       | _ :: _ =>
           if Qltb 0 (np_sum ms) then Ok PosInf
           else if Qltb (np_sum ms) 0 then Ok NegInf
           else Ok NaN
       end
  else Ok (Finite (fl_div (np_sum ms) (inject_Z n))).

Fixpoint fbc_loop (nocffz : Z) (data : list Row) (indices : list Z) : result (list Row) :=
  match indices with
  | [] => Ok data
  | index :: rest =>
      ms <- mapM (fun i => r <- at_index data i ;; Ok (momentum r))
                 (neighbours index nocffz) ;;
      avg <- np_mean ms (2 * nocffz) ;;
      r <- at_index data index ;;
      if np_gt avg (fl_mul 6 (momentum r))
      then fbc_loop nocffz (set_at data (Z.to_nat index) Base) rest
      else fbc_loop nocffz data rest
  end.

Definition find_base_candles (data : list Candle) (nocffz : Z) : result (list Row) :=
  let data' := map (fun c => mkRow c Momentum (Qabs (fl_sub (close c) (open c)))) data in
  fbc_loop nocffz data' (py_range_Z nocffz (Z.of_nat (length data') - nocffz)).

(** ** Zones and the detector *)

Record Zone : Type := mkZone {
  z_close_timestamp : Z;
  z_high : Q;
  z_low : Q
}.

Definition by_low (a b : Zone) : bool := Qle_bool (z_low a) (z_low b).

(** The condition of the inner [if] of [find_zones]. *)
Definition touches (base_candle c : Candle) : bool :=
  (Qltb (low base_candle) (high c) && Qltb (high c) (high base_candle))
  || (Qltb (low base_candle) (low c) && Qltb (low c) (high base_candle)).

(** The inner loop of [find_zones], with its [break]. *)
Fixpoint scan_touches (base_candle : Candle) (later : list Candle)
         (number_of_touches max_num_touches : Z) : Z :=
  match later with
  | [] => number_of_touches
  | c :: rest =>
      if touches base_candle c
      then let n := (number_of_touches + 1)%Z in
           if (n >? max_num_touches)%Z then n
           else scan_touches base_candle rest n max_num_touches
      else scan_touches base_candle rest number_of_touches max_num_touches
  end.

(** [data[data["open_timestamp"] > base_candle["close_timestamp"]]] *)
Definition later_candles (data : list Row) (base_candle : Candle) : list Candle :=
  map candle
      (filter (fun r => (close_timestamp base_candle <? open_timestamp (candle r))%Z) data).

Definition zone_of (base_candle : Candle) : Zone :=
  mkZone (close_timestamp base_candle) (high base_candle) (low base_candle).

(** The outer loop of [find_zones]: the list [zones] before it is sorted. *)
Fixpoint fz_loop (data : list Row) (bases : list Row) (max_num_touches : Z) : list Zone :=
  match bases with
  | [] => []
  | b :: rest =>
      let base_candle := candle b in
      let number_of_touches :=
        scan_touches base_candle (later_candles data base_candle) 0 max_num_touches in
      if (number_of_touches <=? max_num_touches)%Z
      then zone_of base_candle :: fz_loop data rest max_num_touches
      else fz_loop data rest max_num_touches
  end.

Definition find_zones (data : list Row) (max_num_touches : Z) : list Zone :=
  let bases := filter (fun r => is_base (candle_type r)) data in
  sort_values by_low (fz_loop data bases max_num_touches).

(** ** The merger *)

(** The loop of [append_zones]; [flag] is the source's [flag == 1]. *)
Fixpoint az_loop (zones : list Zone) (indices : list nat)
         (appended_zones : list Zone) (flag : bool) : result (list Zone) :=
  match indices with
  | [] => Ok appended_zones
  | index :: rest =>
      if flag then az_loop zones rest appended_zones false
      else
        prev <- at_pos zones (index - 1) ;;
        cur <- at_pos zones index ;;
        if Qle_bool (z_low cur) (z_high prev)
        then az_loop zones rest
               (appended_zones ++ [mkZone (z_close_timestamp prev) (z_high cur) (z_low prev)])
               true
        else az_loop zones rest
               (appended_zones ++ [mkZone (z_close_timestamp prev) (z_high prev) (z_low prev)])
               false
  end.

(** The value of a loop variable after its [for] loop: the last element of
    the range, or no binding at all when the range was empty. *)
Definition after_loop (indices : list nat) : result nat :=
  match rev indices with
  | [] => Raise UnboundLocalError
  | index :: _ => Ok index
  end.

Definition append_zones (zones : list Zone) : result (list Zone) :=
  let indices := py_range 1 (length zones) in
  appended_zones <- az_loop zones indices [] false ;;
  index <- after_loop indices ;;
  before_last <- at_pos zones (index - 1) ;;
  last <- at_pos zones (length zones - 1) ;;
  Ok (appended_zones
        ++ [mkZone (z_close_timestamp before_last) (z_high last) (z_low last)]).

(** The loop at the head of [generate_chart]:
    [while len(zones) > len(append_zones(zones)): zones = append_zones(zones)].
    [None] stands for a loop that did not finish within [fuel] tests of its
    condition. *)
Fixpoint merge_loop (fuel : nat) (zones : list Zone) : option (result (list Zone)) :=
  match fuel with
  | O => None
  | S fuel' =>
      match append_zones zones with
      | Raise e => Some (Raise e)
      | Ok appended_zones =>
          if (length appended_zones <? length zones)%nat
          then merge_loop fuel' appended_zones
          else Some (Ok zones)
      end
  end.

Definition merged_zones (zones : list Zone) : option (result (list Zone)) :=
  merge_loop (S (length zones)) zones.

(** ** Timeframe tokens *)

(** A Python [str] is a sequence of code points. *)
Definition str : Type := list N.

Definition chr (c : ascii) : N := N_of_ascii c.

(** *** Rocq strings as Python strings

    A Rocq string stands for the [str] whose UTF-8 encoding it is.  The
    decoder reads the bytes from left to right; a byte sequence that is no
    UTF-8 gives U+FFFD. *)

Definition replacement : N := 65533.

Record utf8_state : Type := mk_utf8 {
  decoded : list N;                 (* the code points so far, last first *)
  pending : option (N * nat * N)    (* bits so far, bytes to come less one,
                                       least code point of this length *)
}.

Definition utf8_start (out : list N) (b : N) : utf8_state :=
  if (b <? 128)%N then mk_utf8 (b :: out) None
  else if (194 <=? b)%N && (b <? 224)%N
       then mk_utf8 out (Some ((b - 192)%N, 0%nat, 128%N))
  else if (224 <=? b)%N && (b <? 240)%N
       then mk_utf8 out (Some ((b - 224)%N, 1%nat, 2048%N))
  else if (240 <=? b)%N && (b <? 245)%N
       then mk_utf8 out (Some ((b - 240)%N, 2%nat, 65536%N))
  else mk_utf8 (replacement :: out) None.

Definition utf8_scalar (cp least : N) : N :=
  if (least <=? cp)%N && (cp <=? 1114111)%N
     && negb ((55296 <=? cp)%N && (cp <=? 57343)%N)
  then cp else replacement.

Definition utf8_step (st : utf8_state) (b : N) : utf8_state :=
  match pending st with
  | None => utf8_start (decoded st) b
  | Some (bits, more, least) =>
      if (128 <=? b)%N && (b <? 192)%N
      then let bits' := (bits * 64 + (b - 128))%N in
           match more with
           | O => mk_utf8 (utf8_scalar bits' least :: decoded st) None
           | S more' => mk_utf8 (decoded st) (Some (bits', more', least))
           end
      else utf8_start (replacement :: decoded st) b
  end.

Definition utf8_finish (st : utf8_state) : str :=
  rev (match pending st with
       | None => decoded st
       | Some _ => replacement :: decoded st
       end).

Definition utf8_decode (bytes : list N) : str :=
  utf8_finish (fold_left utf8_step bytes (mk_utf8 [] None)).

Definition str_of_string (s : string) : str :=
  utf8_decode (map N_of_ascii (list_ascii_of_string s)).

(** *** [int()]

    [int(s)] first rewrites a [str] into ASCII: a code point below 127 is
    kept, a Unicode blank becomes a space, a Unicode decimal digit its
    ASCII digit, anything else a character that no literal has. *)

(** The decimal digits of Unicode 14.0 (the database of Python 3.11): the
    runs (first code point, length) of consecutive digits; each run starts
    at a zero and counts up, again and again. *)
Definition decimal_runs : list (N * N) :=
  [(48, 10); (1632, 10); (1776, 10); (1984, 10); (2406, 10); (2534, 10);
   (2662, 10); (2790, 10); (2918, 10); (3046, 10); (3174, 10); (3302, 10);
   (3430, 10); (3558, 10); (3664, 10); (3792, 10); (3872, 10); (4160, 10);
   (4240, 10); (6112, 10); (6160, 10); (6470, 10); (6608, 10); (6784, 10);
   (6800, 10); (6992, 10); (7088, 10); (7232, 10); (7248, 10); (42528, 10);
   (43216, 10); (43264, 10); (43472, 10); (43504, 10); (43600, 10);
   (44016, 10); (65296, 10); (66720, 10); (68912, 10); (69734, 10);
   (69872, 10); (69942, 10); (70096, 10); (70384, 10); (70736, 10);
   (70864, 10); (71248, 10); (71360, 10); (71472, 10); (71904, 10);
   (72016, 10); (72784, 10); (73040, 10); (73120, 10); (92768, 10);
   (92864, 10); (93008, 10); (120782, 50); (123200, 10); (123632, 10);
   (125264, 10); (130032, 10)]%N.

Definition decimal_value (c : N) : option N :=
  match find (fun r => (fst r <=? c)%N && (c <? fst r + snd r)%N) decimal_runs with
  | Some r => Some ((c - fst r) mod 10)%N
  | None => None
  end.

(** The blanks above 127 ([Py_UNICODE_ISSPACE]). *)
Definition unicode_spaces : list N :=
  [133; 160; 5760; 8192; 8193; 8194; 8195; 8196; 8197; 8198; 8199; 8200;
   8201; 8202; 8232; 8233; 8239; 8287; 12288]%N.

Definition to_ascii (c : N) : N :=
  if (c <? 127)%N then c
  else if existsb (N.eqb c) unicode_spaces then chr " "
  else match decimal_value c with
       | Some d => (chr "0" + d)%N
       | None => chr "?"
       end.

Definition is_digit (c : N) : bool := (chr "0" <=? c)%N && (c <=? chr "9")%N.

(** The blanks that the parser of integer literals skips ([Py_ISSPACE]):
    tab, line feed, vertical tab, form feed, carriage return, space. *)
Definition is_space (c : N) : bool :=
  ((9 <=? c)%N && (c <=? 13)%N) || (c =? chr " ")%N.

Definition digit_value (c : N) : Z := Z.of_N (c - chr "0").

Fixpoint lstrip (s : list N) : list N :=
  match s with
  | [] => []
  | c :: s' => if is_space c then lstrip s' else s
  end.

Definition strip (s : list N) : list N := rev (lstrip (rev (lstrip s))).

(** Decimal digits, with single underscores allowed between two digits. *)
Fixpoint int_digits (acc : Z) (after_digit : bool) (s : list N) : result Z :=
  match s with
  | [] => if after_digit then Ok acc else Raise ValueError
  | c :: s' =>
      if is_digit c then int_digits (10 * acc + digit_value c)%Z true s'
      else if (c =? chr "_")%N && after_digit then int_digits acc false s'
      else Raise ValueError
  end.

(** The default of [sys.set_int_max_str_digits]. *)
Definition max_str_digits : nat := 4300.

(** The digits of a literal, after its sign: a literal of more than
    [max_str_digits] digits is refused. *)
Definition int_literal (s : list N) : result Z :=
  n <- int_digits 0 false s ;;
  if (max_str_digits <? length (filter is_digit s))%nat then Raise ValueError
  else Ok n.

(** Python's [int(s)]: surrounding blanks, an optional sign, then the
    digits; anything else is a ValueError. *)
Definition py_int (s : str) : result Z :=
  match strip (map to_ascii s) with
  | c :: s' =>
      if (c =? chr "-")%N then n <- int_literal s' ;; Ok (- n)%Z
      else if (c =? chr "+")%N then int_literal s'
      else int_literal (c :: s')
  | [] => Raise ValueError
  end.

(** [convert_timeframe] on a [str]. *)
Definition convert_timeframe_str (timeframe_string : str) : result Z :=
  match rev timeframe_string with
  | [] => Raise IndexError
  | unit :: rev_prefix =>
      match py_int (rev rev_prefix) with
      | Ok number =>
          if (unit =? chr "m")%N then Ok (number * 60000)%Z
          else if (unit =? chr "h")%N then Ok (number * 60000 * 60)%Z
          else if (unit =? chr "d")%N then Ok (number * 60000 * 60 * 24)%Z
          else if (unit =? chr "w")%N then Ok (number * 60000 * 60 * 24 * 7)%Z
          else Ok 0%Z
      | Raise _ => Ok 0%Z
      end
  end.

(** [convert_timeframe] on the [str] that a Rocq string stands for. *)
Definition convert_timeframe (timeframe_string : string) : result Z :=
  convert_timeframe_str (str_of_string timeframe_string).

(** Lines 88 to 92 of [get_candles]: the call of [convert_timeframe] and
    the first use of its result; [current_timestamp] is the clock reading. *)
Definition last_timestamp_in_timeframe (current_timestamp : Z) (timeframe_str : string)
  : result Z :=
  timeframe_ms <- convert_timeframe timeframe_str ;;
  r <- py_mod current_timestamp timeframe_ms ;;
  Ok (current_timestamp - r)%Z.

(** ** Properties of candle series, as the specification words them *)

(** [candle[i].close_timestamp + 1 == candle[i+1].open_timestamp] for every
    consecutive pair. *)
Fixpoint contiguous (l : list Candle) : bool :=
  match l with
  | [] => true
  | a :: l' =>
      match l' with
      | [] => true
      | b :: _ => (close_timestamp a + 1 =? open_timestamp b)%Z && contiguous l'
      end
  end.

(** Time-ordered with unique open timestamps: strictly ascending. *)
Fixpoint time_ordered (l : list Candle) : bool :=
  match l with
  | [] => true
  | a :: l' =>
      match l' with
      | [] => true
      | b :: _ => (open_timestamp a <? open_timestamp b)%Z && time_ordered l'
      end
  end.

(** Every candle that has a successor does not close before it opens, and
    closes before its successor opens. *)
Fixpoint disjoint_candles (l : list Candle) : bool :=
  match l with
  | [] => true
  | a :: l' =>
      match l' with
      | [] => true
      | b :: _ =>
          (open_timestamp a <=? close_timestamp a)%Z
          && (close_timestamp a <? open_timestamp b)%Z
          && disjoint_candles l'
      end
  end.

(** The rows that the loop of [generate_missing_candles] appends, read off
    the input: one per consecutive pair that is not contiguous. *)
Fixpoint fillers (l : list Candle) : list Candle :=
  match l with
  | [] => []
  | a :: l' =>
      match l' with
      | [] => []
      | b :: _ =>
          if negb (close_timestamp a + 1 =? open_timestamp b)%Z
          then new_row a b :: fillers l'
          else fillers l'
      end
  end.

(** The input with each filler put between the two rows it was built from. *)
Fixpoint interleaved (l : list Candle) : list Candle :=
  match l with
  | [] => []
  | a :: l' =>
      match l' with
      | [] => [a]
      | b :: _ =>
          if negb (close_timestamp a + 1 =? open_timestamp b)%Z
          then a :: new_row a b :: interleaved l'
          else a :: interleaved l'
      end
  end.


(** The series of the specification's example scenario: open timestamps
    [0, 100, 100000, 100001, 200002], close timestamps
    [99, 199, 100999, 200001, 300001]; the prices play no role. *)
Definition flat_candle (o c : Z) : Candle := mkCandle o 1 1 1 1 1 c 1.

Definition example_series : list Candle :=
  [flat_candle 0 99; flat_candle 100 199; flat_candle 100000 100999;
   flat_candle 100001 200001; flat_candle 200002 300001].

(** A series with one gap and no overlap. *)
Definition gapped_series : list Candle :=
  [mkCandle 0 10 12 9 11 100 99 40; mkCandle 100 11 13 10 12 80 199 20;
   mkCandle 1000 14 15 13 14 60 1099 30].

(** ** Touches, as the specification words them *)

(** [x] lies strictly inside the open band [(b.low, b.high)]. *)
Definition strictly_inside (b : Candle) (x : Q) : bool :=
  Qltb (low b) x && Qltb x (high b).

(** [c] opens after [b] has closed, and its high or its low lies strictly
    inside the band of [b]. *)
Definition later_touch (b c : Candle) : bool :=
  (close_timestamp b <? open_timestamp c)%Z
  && (strictly_inside b (high c) || strictly_inside b (low c)).

(** One touch for each such candle of the whole input. *)
Definition touch_count (data : list Row) (b : Candle) : Z :=
  Z.of_nat (length (filter (fun r => later_touch b (candle r)) data)).

(** The range of [c] covers the whole band of [b]. *)
Definition engulfs (b c : Candle) : bool :=
  Qle_bool (low c) (low b) && Qle_bool (high b) (high c).

(** A base candle with band (10, 20), followed by a candle whose range
    (5, 25) sweeps through the band, and one that stays above it. *)
Definition swept_base : Row := mkRow (mkCandle 0 12 20 10 12 1 99 1) Base 0.

Definition sweeping_candle : Candle := mkCandle 100 6 25 5 24 1 199 1.

Definition swept_series : list Row :=
  [swept_base;
   mkRow sweeping_candle Momentum 18;
   mkRow (mkCandle 200 24 30 22 29 1 299 1) Momentum 5].

(** ** The merger's postcondition, and two overlapping zones *)

(** [zone[i].high < zone[i+1].low] for every adjacent pair. *)
Fixpoint non_overlapping (zones : list Zone) : bool :=
  match zones with
  | [] => true
  | a :: zones' =>
      match zones' with
      | [] => true
      | b :: _ => Qltb (z_high a) (z_low b) && non_overlapping zones'
      end
  end.

(** Zones (low 10, high 20) and (low 15, high 18), sorted by low. *)
Definition overlapping_pair : list Zone := [mkZone 1 20 10; mkZone 2 18 15].

(** ** The classifier's rule, as the specification words it *)

(** [momentum[j] = |close[j] - open[j]|], in floats. *)
Definition momentum_at (data : list Candle) (j : nat) : Q :=
  match nth_error data j with
  | Some c => Qabs (fl_sub (close c) (open c))
  | None => 0
  end.

(** The [2 * window] neighbours of [i]: the indices [i - window .. i - 1]
    and [i + 1 .. i + window]. *)
Definition neighbour_indices (window i : nat) : list nat :=
  seq (i - window) window ++ seq (i + 1) window.

(** The mean of the momentum over the neighbours of [i], in floats: the
    momenta added up in the order of the indices, then divided by
    [2 * window]. *)
Definition neighbour_mean (data : list Candle) (window i : nat) : Q :=
  fl_div (np_sum (map (momentum_at data) (neighbour_indices window i)))
         (Q_of_nat (2 * window)).

(** The test of the loop of [find_base_candles] at [index], on the column
    [ms] of momenta. *)
Definition base_test (ms : list Q) (nocffz index : nat) : bool :=
  Qltb (fl_mul 6 (nth index ms 0))
       (fl_div (np_sum (map (fun j => nth j ms 0) (neighbour_indices nocffz index)))
               (Q_of_nat (2 * nocffz))).

Definition fbc_step (ms : list Q) (nocffz : nat) (data : list Row) (index : nat)
  : list Row :=
  if base_test ms nocffz index then set_at data index Base else data.

(** Five candles whose bodies are 10, 10, 1, 10, 10: the middle one is a
    base candle for a window of 1 or 2. *)
Definition body_candle (t : Z) (o c : Q) : Candle :=
  mkCandle t o (Qmax o c) (Qmin o c) c 1 (t + 99) 1.

Definition quiet_middle : list Candle :=
  [body_candle 0 100 110; body_candle 100 110 120; body_candle 200 120 121;
   body_candle 300 121 131; body_candle 400 131 141].

(** Thirteen candles: twelve with a body of 3.84 around one with a body of
    0.64.  In floats the twelve bodies add up to 46.080000000000013, and
    their mean 3.8400000000000012 is above 6 * 0.64 = 3.84. *)
Definition rounding_series : list Candle :=
  map (fun k => body_candle (Z.of_nat k * 100) 0 (if Nat.eqb k 6 then 5764607523034235 # 9007199254740992
                       else 1080863910568919 # 281474976710656))
      (seq 0 13).

(** ** Timeframe tokens, as the specification words them *)

(** The token made of a prefix and a one-character suffix. *)
Definition token (prefix : list ascii) (suffix : ascii) : string :=
  string_of_list_ascii (prefix ++ [suffix]).

(** A decimal digit, of any script. *)
Definition is_decimal (c : N) : bool :=
  match decimal_value c with
  | Some _ => true
  | None => false
  end.

(** The number that a string of decimal digits denotes. *)
Definition decimal (digits : str) : Z :=
  fold_left (fun acc c => (10 * acc + match decimal_value c with
                                      | Some d => Z.of_N d
                                      | None => 0
                                      end)%Z) digits 0%Z.

(** Milliseconds per unit: 60000 for m, x60 for h, x24 for d, x7 for w. *)
Definition unit_ms (suffix : N) : option Z :=
  if (suffix =? chr "m")%N then Some 60000%Z
  else if (suffix =? chr "h")%N then Some (60000 * 60)%Z
  else if (suffix =? chr "d")%N then Some (60000 * 60 * 24)%Z
  else if (suffix =? chr "w")%N then Some (60000 * 60 * 24 * 7)%Z
  else None.

(** A character that no integer literal of [int()] contains: no decimal
    digit, no blank, no underscore and no sign. *)
Definition foreign_char (c : N) : bool :=
  negb (is_decimal c) && negb (is_space c) && negb (existsb (N.eqb c) unicode_spaces)
  && negb (c =? chr "_")%N && negb (c =? chr "+")%N && negb (c =? chr "-")%N.

(** A token of 4301 digits. *)
Definition long_token_digits : str := repeat (chr "1") 4301.

(** ** The pass of the merger, read as a function of the list *)

(** The zones that the loop of [append_zones] emits from the pair
    ([prev], head of [rest]) on, when it arrives there with [flag]. *)
Fixpoint az_pass (prev : Zone) (rest : list Zone) (flag : bool) : list Zone :=
  match rest with
  | [] => []
  | cur :: rest' =>
      if flag then az_pass cur rest' false
      else if Qle_bool (z_low cur) (z_high prev)
           then mkZone (z_close_timestamp prev) (z_high cur) (z_low prev)
                  :: az_pass cur rest' true
           else mkZone (z_close_timestamp prev) (z_high prev) (z_low prev)
                  :: az_pass cur rest' false
  end.

(** Sorted ascending by [low]. *)
Definition sorted_by_low (zones : list Zone) : Prop :=
  Sorted (fun a b => z_low a <= z_low b) zones.

(** Three zones that are pairwise apart. *)
Definition separate_zones : list Zone :=
  [mkZone 1 20 10; mkZone 2 40 30; mkZone 3 60 50].

(** Four zones, sorted by low, of which the first three overlap in a chain. *)
Definition chained_zones : list Zone :=
  [mkZone 1 20 10; mkZone 2 30 15; mkZone 3 40 25; mkZone 4 60 50].

(** ** The whole run, from the candles of the exchange to the zones *)

(** Lines 292 to 294 and the head of [generate_chart], for the candles
    that [get_candles] returned: normalize, classify with [nocffz], detect
    with [max_num_touches], merge.  ([generate_vol_per_trade] only adds a
    column; the source runs with [nocffz = 6] and [max_num_touches = 4].) *)
Definition zone_pipeline (candles : list Candle) (nocffz : Z) (max_num_touches : Z)
  : option (result (list Zone)) :=
  match (normalized <- generate_missing_candles candles ;;
         find_base_candles normalized nocffz) with
  | Raise e => Some (Raise e)
  | Ok data => merged_zones (find_zones data max_num_touches)
  end.

(** ** Well-formed prices *)

(** The low is the smallest and the high the largest of the four prices. *)
Definition price_ordered (c : Candle) : Prop :=
  low c <= open c /\ low c <= close c /\ open c <= high c /\ close c <= high c.

(** ** The requests of [get_candles] *)

(** Python's [range(a, b, step)] on integers. *)
Definition py_range_step (a b step : Z) : result (list Z) :=
  if (step =? 0)%Z then Raise ValueError
  else
    let n := if (0 <? step)%Z
             then if (a <? b)%Z then ((b - a - 1) / step + 1)%Z else 0%Z
             else if (b <? a)%Z then ((a - b - 1) / (- step) + 1)%Z else 0%Z in
    Ok (map (fun k => (a + Z.of_nat k * step)%Z) (seq 0 (Z.to_nat n))).

(** The [startTime] and [endTime] that [get_table] sends for [last_time]. *)
Definition get_table_request (last_time timeframe_ms : Z) : Z * Z :=
  let starttime := (last_time - timeframe_ms * 1000)%Z in
  (starttime, (last_time + 1)%Z).

(** The requests that [get_candles] makes, in its order: one call of
    [get_table] for each [last_time] of its loop.  [current_timestamp] is
    the clock reading. *)
Definition get_candles_requests (current_timestamp start_time : Z)
           (timeframe_str : string) : result (list (Z * Z)) :=
  timeframe_ms <- convert_timeframe timeframe_str ;;
  r <- py_mod current_timestamp timeframe_ms ;;
  let last_timestamp_in_timeframe := (current_timestamp - r)%Z in
  last_times <- py_range_step last_timestamp_in_timeframe start_time
                              (- timeframe_ms * 1000) ;;
  Ok (map (fun last_time => get_table_request last_time timeframe_ms) last_times).

(* ================================================================== *)
(** * Part II: theorems *)
(* ================================================================== *)

(** ** The error monad *)

Lemma mapM_ok {A B : Type} (f : A -> result B) (g : A -> B) (l : list A) :
  (forall a, In a l -> f a = Ok (g a)) -> mapM f l = Ok (map g l).
Proof.
  induction l as [|a l IH]; intros H; simpl; [reflexivity|].
  rewrite (H a (or_introl eq_refl)); simpl.
  rewrite IH by (intros; apply H; right; assumption).
  reflexivity.
Qed.

Lemma Ok_inj {A : Type} (a b : A) : Ok a = Ok b -> a = b.
Proof. intros H. injection H as H. exact H. Qed.

(** ** [sort_values] *)

Section SortValues.
Variable A : Type.
Variable leb : A -> A -> bool.

Lemma insert_by_perm (x : A) (l : list A) :
  Permutation (insert_by leb x l) (x :: l).
Proof.
  induction l as [|y l IH]; simpl; [reflexivity|].
  destruct (leb x y); [reflexivity|].
  rewrite IH. apply perm_swap.
Qed.

Lemma sort_values_perm (l : list A) : Permutation (sort_values leb l) l.
Proof.
  induction l as [|x l IH]; simpl; [constructor|].
  rewrite insert_by_perm. constructor. exact IH.
Qed.

Hypothesis leb_total : forall a b, leb a b = false -> leb b a = true.

Lemma insert_by_sorted (x : A) (l : list A) :
  Sorted (fun a b => leb a b = true) l ->
  Sorted (fun a b => leb a b = true) (insert_by leb x l).
Proof.
  induction l as [|y l IH]; intros Hs; simpl.
  - repeat constructor.
  - destruct (leb x y) eqn:E.
    + constructor; [exact Hs | constructor; exact E].
    + inversion Hs as [|? ? Hs' Hhd]; subst.
      constructor; [apply IH; exact Hs'|].
      destruct l as [|z l]; simpl.
      * constructor. apply leb_total; exact E.
      * destruct (leb x z); constructor.
        -- apply leb_total; exact E.
        -- inversion Hhd; assumption.
Qed.

Lemma sort_values_sorted (l : list A) :
  Sorted (fun a b => leb a b = true) (sort_values leb l).
Proof.
  induction l as [|x l IH]; simpl; [constructor|].
  apply insert_by_sorted; exact IH.
Qed.
End SortValues.

(** A list that is strictly ascending in an integer key is the only sorted
    arrangement of its rows. *)
Section UniqueSort.
Variable A : Type.
Variable key : A -> Z.

Let le_key (a b : A) : Prop := (key a <= key b)%Z.
Let lt_key (a b : A) : Prop := (key a < key b)%Z.

Lemma strict_key_inj (l : list A) (a b : A) :
  StronglySorted lt_key l -> In a l -> In b l -> key a = key b -> a = b.
Proof.
  unfold lt_key.
  induction l as [|x l IH]; intros Hs Ha Hb E; [contradiction|].
  inversion Hs as [|? ? Hs' Hall]; subst.
  rewrite Forall_forall in Hall.
  destruct Ha as [->|Ha], Hb as [->|Hb]; auto.
  - specialize (Hall _ Hb). lia.
  - specialize (Hall _ Ha). lia.
Qed.

Lemma sorted_perm_unique (l1 l2 : list A) :
  StronglySorted le_key l1 -> StronglySorted lt_key l2 ->
  Permutation l1 l2 -> l1 = l2.
Proof.
  unfold le_key, lt_key.
  revert l2; induction l1 as [|a t1 IH]; intros l2 H1 H2 P.
  - apply Permutation_nil in P; subst; reflexivity.
  - destruct l2 as [|b t2].
    + apply Permutation_sym, Permutation_nil in P; discriminate.
    + inversion H1 as [|? ? H1' Hall1]; subst.
      inversion H2 as [|? ? H2' Hall2]; subst.
      rewrite Forall_forall in Hall1, Hall2.
      assert (Hab : a = b).
      { apply (strict_key_inj H2).
        - apply (Permutation_in _ P); left; reflexivity.
        - left; reflexivity.
        - assert (Ha : In a (b :: t2))
            by (apply (Permutation_in _ P); left; reflexivity).
          assert (Hb : In b (a :: t1))
            by (apply (Permutation_in _ (Permutation_sym P)); left; reflexivity).
          destruct Ha as [Ha|Ha]; [subst; reflexivity|].
          destruct Hb as [Hb|Hb]; [subst; reflexivity|].
          specialize (Hall1 _ Hb). specialize (Hall2 _ Ha). lia. }
      subst b. f_equal. apply IH; auto.
      apply Permutation_cons_inv with (a := a); exact P.
Qed.

Lemma sort_values_unique (l l' : list A) :
  StronglySorted lt_key l' -> Permutation l l' ->
  sort_values (fun a b => (key a <=? key b)%Z) l = l'.
Proof.
  intros Hs P.
  apply sorted_perm_unique; [| exact Hs |].
  - apply Sorted_StronglySorted.
    + intros x y z; unfold le_key; lia.
    + assert (S0 : Sorted (fun a b => (key a <=? key b)%Z = true)
                          (sort_values (fun a b => (key a <=? key b)%Z) l)).
      { apply sort_values_sorted. intros a b E.
        apply Z.leb_gt in E. apply Z.leb_le. lia. }
      induction S0 as [|a l0 _ IH Hhd]; constructor; [exact IH|].
      destruct Hhd as [|b l1 Hab]; constructor.
      unfold le_key. apply Z.leb_le. exact Hab.
  - rewrite sort_values_perm. exact P.
Qed.
End UniqueSort.

(** ** Label lookup in the frame of the normalizer *)

Lemma filter_label_range_index {R : Type} (rows : list R) (s l : nat) :
  filter (fun p => Nat.eqb (fst p) l) (combine (seq s (length rows)) rows)
  = match (if (s <=? l)%nat then nth_error rows (l - s) else None) with
    | Some r => [(l, r)]
    | None => []
    end.
Proof.
  revert s; induction rows as [|r rows IH]; intros s.
  - cbn [length seq combine filter].
    destruct (s <=? l)%nat; [destruct (l - s)%nat|]; reflexivity.
  - cbn [length seq combine filter fst]. rewrite IH.
    destruct (Nat.eqb_spec s l) as [->|Hne].
    + rewrite Nat.leb_refl, Nat.sub_diag.
      destruct (Nat.leb_spec (S l) l); [lia | reflexivity].
    + destruct (Nat.leb_spec s l) as [Hle|Hgt].
      * destruct (Nat.leb_spec (S s) l); [|lia].
        replace (l - s)%nat with (S (l - S s)) by lia. reflexivity.
      * destruct (Nat.leb_spec (S s) l); [lia | reflexivity].
Qed.

Lemma filter_label_appended {R : Type} (fs : list R) (l : nat) :
  l <> 0%nat -> filter (fun p => Nat.eqb (fst p) l) (map (pair 0%nat) fs) = [].
Proof.
  intros Hl; induction fs as [|f fs IH]; [reflexivity|].
  cbn [map filter fst].
  destruct (Nat.eqb_spec 0 l); [lia | exact IH].
Qed.

(** A label of the input is found, and found once, as long as no row has
    been appended under the same label. *)
Lemma at_label_frame {R : Type} (rows fs : list R) (l : nat) (r : R) :
  nth_error rows l = Some r ->
  l <> 0%nat \/ fs = [] ->
  at_label (range_index rows ++ map (pair 0%nat) fs) l = Ok r.
Proof.
  intros Hnth Hl. unfold at_label, range_index.
  rewrite filter_app, filter_label_range_index.
  simpl. rewrite Nat.sub_0_r, Hnth.
  destruct Hl as [Hl| ->].
  - rewrite filter_label_appended by exact Hl. reflexivity.
  - reflexivity.
Qed.

Lemma map_snd_range_index {R : Type} (rows : list R) :
  map snd (range_index rows) = rows.
Proof.
  unfold range_index. generalize 0%nat.
  induction rows as [|r rows IH]; intros s; simpl; [reflexivity|].
  rewrite IH; reflexivity.
Qed.

Lemma skipn_nth_error {R : Type} (rows : list R) (i : nat) (r : R) :
  nth_error rows i = Some r -> skipn i rows = r :: skipn (S i) rows.
Proof.
  revert i; induction rows as [|x rows IH]; intros [|i] H; simpl in *;
    try discriminate.
  - injection H as ->; reflexivity.
  - apply IH; exact H.
Qed.

(** ** The loop of the normalizer *)

Lemma fillers_short (l : list Candle) : (length l <= 1)%nat -> fillers l = [].
Proof.
  destruct l as [|a [|b l]]; simpl; intros; try reflexivity; lia.
Qed.

Lemma fillers_cons (a b : Candle) (l : list Candle) :
  fillers (a :: b :: l)
  = if negb (close_timestamp a + 1 =? open_timestamp b)%Z
    then new_row a b :: fillers (b :: l)
    else fillers (b :: l).
Proof. reflexivity. Qed.

Lemma gmc_loop_fillers (data : list Candle) (m k : nat) (fs : list Candle) :
  (1 <= k)%nat -> (k + m)%nat = length data -> (k = 1%nat -> fs = []) ->
  gmc_loop (range_index data ++ map (pair 0%nat) fs) (seq k m)
  = Ok (range_index data ++ map (pair 0%nat) (fs ++ fillers (skipn (k - 1) data))).
Proof.
  revert k fs; induction m as [|m IH]; intros k fs Hk Hlen Hfs; simpl.
  - rewrite fillers_short, app_nil_r; [reflexivity|].
    rewrite length_skipn; lia.
  - destruct (nth_error data (k - 1)) as [prev|] eqn:Eprev;
      [| apply nth_error_None in Eprev; lia].
    destruct (nth_error data k) as [cur|] eqn:Ecur;
      [| apply nth_error_None in Ecur; lia].
    rewrite (@at_label_frame _ data fs (k - 1) prev Eprev)
      by (destruct (Nat.eq_dec k 1); [right; auto | left; lia]).
    rewrite (@at_label_frame _ data fs k cur Ecur) by (left; lia).
    simpl.
    rewrite (@skipn_nth_error _ data (k - 1) prev Eprev).
    replace (S (k - 1)) with k by lia.
    rewrite (@skipn_nth_error _ data k cur Ecur).
    rewrite fillers_cons.
    rewrite <- (@skipn_nth_error _ data k cur Ecur).
    destruct (negb (close_timestamp prev + 1 =? open_timestamp cur)%Z).
    + rewrite <- app_assoc.
      change ([(0%nat, new_row prev cur)]) with (map (pair 0%nat) [new_row prev cur]).
      rewrite <- map_app.
      rewrite IH by (try lia; intros; lia).
      replace (S k - 1)%nat with k by lia.
      rewrite <- app_assoc. reflexivity.
    + rewrite IH by (try lia; intros; lia).
      replace (S k - 1)%nat with k by lia. reflexivity.
Qed.

(** The normalizer never raises: its output is the input together with the
    fillers, sorted by open timestamp. *)
Lemma generate_missing_candles_ok (data : list Candle) :
  generate_missing_candles data
  = Ok (sort_values by_open_timestamp (data ++ fillers data)).
Proof.
  unfold generate_missing_candles, py_range.
  destruct data as [|a data]; [reflexivity|].
  assert (Hlen : (1 <= length (a :: data))%nat) by (simpl; lia).
  remember (a :: data) as d eqn:Ed; clear Ed.
  pose proof (@gmc_loop_fillers d (length d - 1) 1 []) as H.
  change (skipn (1 - 1) d) with d in H.
  change (map (pair 0%nat) (@nil Candle)) with (@nil (nat * Candle)) in H.
  rewrite app_nil_r in H.
  rewrite H by (auto; lia).
  cbn [bind app]. rewrite map_app, map_snd_range_index, map_map.
  cbn [snd]. rewrite map_id.
  reflexivity.
Qed.

(** ** The output of the normalizer *)

Lemma interleaved_cons (a b : Candle) (l : list Candle) :
  interleaved (a :: b :: l)
  = if negb (close_timestamp a + 1 =? open_timestamp b)%Z
    then a :: new_row a b :: interleaved (b :: l)
    else a :: interleaved (b :: l).
Proof. reflexivity. Qed.

Lemma interleaved_head (b : Candle) (l : list Candle) :
  exists t, interleaved (b :: l) = b :: t.
Proof.
  destruct l as [|c l]; [exists []; reflexivity|].
  rewrite interleaved_cons.
  destruct (negb _); eexists; reflexivity.
Qed.

Lemma interleaved_perm (data : list Candle) :
  Permutation (data ++ fillers data) (interleaved data).
Proof.
  induction data as [|a data IH]; [constructor|].
  destruct data as [|b l]; [reflexivity|].
  rewrite fillers_cons, interleaved_cons.
  destruct (negb _).
  - cbn [app]. constructor.
    rewrite <- IH. symmetry.
    apply (Permutation_middle (b :: l) (fillers (b :: l)) (new_row a b)).
  - cbn [app]. constructor. exact IH.
Qed.

Lemma contiguous_cons (a b : Candle) (l : list Candle) :
  contiguous (a :: b :: l)
  = (close_timestamp a + 1 =? open_timestamp b)%Z && contiguous (b :: l).
Proof. reflexivity. Qed.

Lemma interleaved_contiguous (data : list Candle) :
  contiguous (interleaved data) = true.
Proof.
  induction data as [|a data IH]; [reflexivity|].
  destruct data as [|b l]; [reflexivity|].
  rewrite interleaved_cons.
  destruct (interleaved_head b l) as [t Et].
  rewrite Et in *.
  destruct (Z.eqb_spec (close_timestamp a + 1) (open_timestamp b)) as [E|E];
    cbn [negb]; rewrite !contiguous_cons, IH.
  - apply Z.eqb_eq in E. rewrite E. reflexivity.
  - cbn [new_row open_timestamp close_timestamp].
    rewrite Z.eqb_refl.
    replace (open_timestamp b - 1 + 1)%Z with (open_timestamp b) by lia.
    rewrite Z.eqb_refl. reflexivity.
Qed.

Lemma interleaved_ascending (data : list Candle) :
  disjoint_candles data = true ->
  StronglySorted (fun a b => (open_timestamp a < open_timestamp b)%Z)
                 (interleaved data).
Proof.
  intros Hd. apply Sorted_StronglySorted; [intros x y z; lia|].
  induction data as [|a data IH]; [constructor|].
  destruct data as [|b l]; [repeat constructor|].
  cbn [disjoint_candles] in Hd.
  apply andb_prop in Hd; destruct Hd as [Hd Hrest].
  apply andb_prop in Hd; destruct Hd as [Ha Hab].
  apply Z.leb_le in Ha. apply Z.ltb_lt in Hab.
  specialize (IH Hrest).
  rewrite interleaved_cons.
  destruct (interleaved_head b l) as [t Et].
  rewrite Et in *.
  destruct (Z.eqb_spec (close_timestamp a + 1) (open_timestamp b)) as [E|E];
    cbn [negb].
  - constructor; [exact IH | constructor; lia].
  - constructor.
    + constructor; [exact IH|].
      constructor. cbn [new_row open_timestamp]. lia.
    + constructor. cbn [new_row open_timestamp]. lia.
Qed.

Lemma generate_missing_candles_disjoint (data : list Candle) :
  disjoint_candles data = true ->
  generate_missing_candles data = Ok (interleaved data).
Proof.
  intros Hd. rewrite generate_missing_candles_ok. f_equal.
  apply (sort_values_unique open_timestamp).
  - apply interleaved_ascending; exact Hd.
  - apply interleaved_perm.
Qed.

Lemma contiguous_nth (l : list Candle) :
  contiguous l = true ->
  forall i a b, nth_error l i = Some a -> nth_error l (S i) = Some b ->
                (close_timestamp a + 1)%Z = open_timestamp b.
Proof.
  induction l as [|x l IH]; intros Hc i a b Ha Hb; [destruct i; discriminate|].
  destruct l as [|y l]; [destruct i; discriminate|].
  rewrite contiguous_cons in Hc. apply andb_prop in Hc; destruct Hc as [Hxy Hc].
  destruct i as [|i].
  - cbn in Ha, Hb. injection Ha as <-. injection Hb as <-.
    apply Z.eqb_eq; exact Hxy.
  - apply (IH Hc i); assumption.
Qed.

(** C1, as stated, fails: the series of the specification's own example is
    time-ordered with unique open timestamps, but its third candle closes
    after the fourth one opens, and the normalized output is not
    contiguous there. *)
Lemma gap_fill_contiguity_counterexample :
  ~ (forall data : list Candle,
        time_ordered data = true ->
        forall out, generate_missing_candles data = Ok out ->
                    contiguous out = true).
Proof.
  intros H.
  assert (E : exists out, generate_missing_candles example_series = Ok out
                          /\ contiguous out = false).
  { eexists; split; vm_compute; reflexivity. }
  destruct E as [out [E1 E2]].
  rewrite (H example_series eq_refl out E1) in E2. discriminate.
Qed.

(** C1, amended: when every input candle that has a successor does not
    close before it opens and closes before its successor opens, the
    normalizer returns a series in which every consecutive pair is
    contiguous: [candle[i].close_timestamp + 1 = candle[i+1].open_timestamp]. *)
Theorem gap_fill_contiguity (data : list Candle) :
  disjoint_candles data = true ->
  exists out,
    generate_missing_candles data = Ok out
    /\ forall i a b,
        nth_error out i = Some a -> nth_error out (S i) = Some b ->
        (close_timestamp a + 1)%Z = open_timestamp b.
Proof.
  intros Hd. exists (interleaved data). split.
  - apply generate_missing_candles_disjoint; exact Hd.
  - apply contiguous_nth, interleaved_contiguous.
Qed.

Lemma gap_fill_contiguity_witness :
  disjoint_candles gapped_series = true
  /\ exists out,
      generate_missing_candles gapped_series = Ok out
      /\ forall i a b,
          nth_error out i = Some a -> nth_error out (S i) = Some b ->
          (close_timestamp a + 1)%Z = open_timestamp b.
Proof.
  split; [reflexivity | apply (gap_fill_contiguity gapped_series); reflexivity].
Defined.

(** ** The fillers *)


Lemma fillers_spec (data : list Candle) (f : Candle) :
  In f (fillers data) <->
  exists i prev cur,
    nth_error data i = Some prev /\ nth_error data (S i) = Some cur
    /\ (close_timestamp prev + 1)%Z <> open_timestamp cur
    /\ f = new_row prev cur.
Proof.
  induction data as [|a data IH]; [split; [intros [] | intros (i & ? & ? & H & _)];
                                   destruct i; discriminate|].
  destruct data as [|b l].
  - split; [intros [] | intros (i & ? & ? & _ & H & _)].
    destruct i; discriminate.
  - rewrite fillers_cons.
    destruct (Z.eqb_spec (close_timestamp a + 1) (open_timestamp b)) as [E|E];
      cbn [negb]; split.
    + intros Hin. apply IH in Hin. destruct Hin as (i & p & c & H1 & H2 & H3 & H4).
      exists (S i), p, c. auto.
    + intros (i & p & c & H1 & H2 & H3 & H4). destruct i as [|i].
      * cbn in H1, H2. injection H1 as <-. injection H2 as <-. contradiction.
      * apply IH. exists i, p, c. auto.
    + intros [Hin|Hin].
      * exists 0%nat, a, b. auto.
      * apply IH in Hin. destruct Hin as (i & p & c & H1 & H2 & H3 & H4).
        exists (S i), p, c. auto.
    + intros (i & p & c & H1 & H2 & H3 & H4). destruct i as [|i].
      * cbn in H1, H2. injection H1 as <-. injection H2 as <-. left; auto.
      * right. apply IH. exists i, p, c. auto.
Qed.


(** ** The normalizer and its input *)

(** C8, as stated, fails: the normalizer returns the empty series for the
    empty series, and does not raise. *)
Lemma normalizer_input_error_counterexample :
  ~ (forall data : list Candle,
        data = [] \/ time_ordered data = false ->
        raises (generate_missing_candles data) = true).
Proof.
  intros H. specialize (H [] (or_introl eq_refl)). discriminate.
Qed.

(** C8, amended: the normalizer validates nothing and never fails; for
    every input series, empty or unordered ones too, it returns the input
    rows and its fillers sorted by open timestamp, and the empty series for
    the empty series. *)
Theorem normalizer_never_fails (data : list Candle) :
  exists out,
    generate_missing_candles data = Ok out
    /\ Permutation out (data ++ fillers data)
    /\ Sorted (fun a b => (open_timestamp a <= open_timestamp b)%Z) out
    /\ (data = [] -> out = []).
Proof.
  exists (sort_values by_open_timestamp (data ++ fillers data)).
  split; [apply generate_missing_candles_ok|].
  split; [apply sort_values_perm|].
  split.
  - assert (S0 : Sorted (fun a b => by_open_timestamp a b = true)
                        (sort_values by_open_timestamp (data ++ fillers data))).
    { apply sort_values_sorted. unfold by_open_timestamp. intros a b E.
      apply Z.leb_gt in E. apply Z.leb_le. lia. }
    induction S0 as [|a l _ IH Hhd]; constructor; [exact IH|].
    destruct Hhd as [|b l' Hab]; constructor.
    apply Z.leb_le. exact Hab.
  - intros ->. reflexivity.
Qed.

(** ** The detector *)

Lemma Qltb_lt (x y : Q) : Qltb x y = true <-> x < y.
Proof.
  unfold Qltb. rewrite Qlt_alt. destruct (x ?= y); split; congruence.
Qed.

Lemma touches_spec (b c : Candle) :
  touches b c = true <->
  (low b < high c /\ high c < high b) \/ (low b < low c /\ low c < high b).
Proof.
  unfold touches. rewrite orb_true_iff, !andb_true_iff, !Qltb_lt. reflexivity.
Qed.

Lemma filter_filter {A : Type} (p q : A -> bool) (l : list A) :
  filter p (filter q l) = filter (fun x => q x && p x) l.
Proof.
  induction l as [|x l IH]; simpl; [reflexivity|].
  destruct (q x); simpl; [destruct (p x)|]; rewrite IH; reflexivity.
Qed.

Lemma filter_map_comm {A B : Type} (p : B -> bool) (g : A -> B) (l : list A) :
  filter p (map g l) = map g (filter (fun x => p (g x)) l).
Proof.
  induction l as [|x l IH]; simpl; [reflexivity|].
  destruct (p (g x)); simpl; rewrite IH; reflexivity.
Qed.

(** The scan with its early exit accepts exactly when the full count does. *)
Lemma scan_touches_decision (b : Candle) (later : list Candle) (n max : Z) :
  (scan_touches b later n max <=? max)%Z
  = (n + Z.of_nat (length (filter (touches b) later)) <=? max)%Z.
Proof.
  revert n; induction later as [|c later IH]; intros n; cbn [scan_touches filter].
  - cbn [length]. f_equal. lia.
  - destruct (touches b c).
    + cbn [length]. rewrite Nat2Z.inj_succ.
      destruct (Z.gtb_spec (n + 1) max) as [Hgt|Hle].
      * destruct (Z.leb_spec (n + 1) max); [lia|].
        destruct (Z.leb_spec (n + Z.succ (Z.of_nat (length (filter (touches b) later)))) max);
          [lia | reflexivity].
      * rewrite IH. f_equal. lia.
    + apply IH.
Qed.

Lemma later_candles_touch_count (data : list Row) (b : Candle) :
  Z.of_nat (length (filter (touches b) (later_candles data b))) = touch_count data b.
Proof.
  unfold later_candles, touch_count.
  rewrite filter_map_comm, length_map, filter_filter. reflexivity.
Qed.

Lemma fz_loop_filter (data bases : list Row) (max : Z) :
  fz_loop data bases max
  = map (fun r => zone_of (candle r))
        (filter (fun r => (touch_count data (candle r) <=? max)%Z) bases).
Proof.
  induction bases as [|r bases IH]; [reflexivity|].
  cbn [fz_loop filter].
  rewrite scan_touches_decision, later_candles_touch_count, Z.add_0_l.
  destruct (touch_count data (candle r) <=? max)%Z; cbn [map]; rewrite IH; reflexivity.
Qed.

(** The zones of [find_zones], up to their order. *)
Lemma find_zones_perm (data : list Row) (max : Z) :
  Permutation
    (find_zones data max)
    (map (fun r => zone_of (candle r))
         (filter (fun r => is_base (candle_type r)
                           && (touch_count data (candle r) <=? max)%Z) data)).
Proof.
  unfold find_zones. rewrite sort_values_perm, fz_loop_filter, filter_filter.
  reflexivity.
Qed.

Lemma find_zones_sorted (data : list Row) (max : Z) :
  Sorted (fun a b => z_low a <= z_low b) (find_zones data max).
Proof.
  unfold find_zones.
  assert (S0 : Sorted (fun a b => by_low a b = true)
                      (sort_values by_low (fz_loop data
                          (filter (fun r => is_base (candle_type r)) data) max))).
  { apply sort_values_sorted. unfold by_low. intros a b E.
    apply Qle_bool_iff. apply Qlt_le_weak. apply Qnot_le_lt.
    intros H. apply Qle_bool_iff in H. congruence. }
  induction S0 as [|a l _ IH Hhd]; constructor; [exact IH|].
  destruct Hhd as [|b l' Hab]; constructor.
  apply Qle_bool_iff. exact Hab.
Qed.

Lemma find_zones_kept (data : list Row) (max : Z) (r : Row) :
  In r data -> is_base (candle_type r) = true ->
  (touch_count data (candle r) <= max)%Z ->
  In (zone_of (candle r)) (find_zones data max).
Proof.
  intros Hin Hb Hc.
  apply (Permutation_in _ (Permutation_sym (find_zones_perm data max))).
  apply (in_map (fun r => zone_of (candle r))).
  apply filter_In. split; [exact Hin|].
  rewrite Hb. apply Z.leb_le. exact Hc.
Qed.

(** C3: the zones of [find_zones] are, in ascending order of [low], the
    zones [{close_timestamp, high, low}] of those base candles b for which
    the number of candles that open after b closes and whose high or low
    lies strictly inside (b.low, b.high) is at most [max_num_touches]. *)
Theorem find_zones_touch_filter (data : list Row) (max_num_touches : Z) :
  Sorted (fun a b => z_low a <= z_low b) (find_zones data max_num_touches)
  /\ Permutation
       (find_zones data max_num_touches)
       (map (fun r => mkZone (close_timestamp (candle r)) (high (candle r))
                             (low (candle r)))
            (filter (fun r => is_base (candle_type r)
                              && (touch_count data (candle r) <=? max_num_touches)%Z)
                    data))
  /\ (forall b c, later_touch b c = true <->
                  (close_timestamp b < open_timestamp c)%Z
                  /\ ((low b < high c /\ high c < high b)
                      \/ (low b < low c /\ low c < high b))).
Proof.
  split; [apply find_zones_sorted|].
  split; [apply find_zones_perm|].
  intros b c. unfold later_touch, strictly_inside.
  rewrite andb_true_iff, orb_true_iff, !andb_true_iff, !Qltb_lt, Z.ltb_lt.
  reflexivity.
Qed.

(** C5: a zone kept with threshold [t] is kept with every threshold
    [t' >= t]. *)
Theorem find_zones_monotone (data : list Row) (t t' : Z) :
  (t <= t')%Z -> incl (find_zones data t) (find_zones data t').
Proof.
  intros Hle z Hin.
  apply (Permutation_in _ (find_zones_perm data t)) in Hin.
  apply in_map_iff in Hin. destruct Hin as (r & <- & Hr).
  apply filter_In in Hr. destruct Hr as [Hr Hkeep].
  apply andb_prop in Hkeep. destruct Hkeep as [Hb Hc].
  apply Z.leb_le in Hc.
  apply find_zones_kept; [exact Hr | exact Hb | lia].
Qed.

Lemma find_zones_monotone_witness :
  (0 <= 3)%Z /\ incl (find_zones swept_series 0) (find_zones swept_series 3).
Proof.
  split; [lia | apply (find_zones_monotone swept_series); lia].
Defined.

Lemma engulfs_no_touch (b c : Candle) : engulfs b c = true -> touches b c = false.
Proof.
  unfold engulfs. rewrite andb_true_iff, !Qle_bool_iff. intros [Hlow Hhigh].
  destruct (touches b c) eqn:E; [|reflexivity].
  apply touches_spec in E.
  destruct E as [[_ H]|[H _]].
  - exfalso. apply (Qlt_irrefl (high c)). eapply Qlt_le_trans; eassumption.
  - exfalso. apply (Qlt_irrefl (low b)). eapply Qlt_le_trans; eassumption.
Qed.

Lemma later_touch_touches (b c : Candle) :
  later_touch b c = (close_timestamp b <? open_timestamp c)%Z && touches b c.
Proof. reflexivity. Qed.

Lemma filter_length_ext {A : Type} (p q : A -> bool) (l : list A) :
  (forall x, p x = q x) -> length (filter p l) = length (filter q l).
Proof.
  intros H. induction l as [|x l IH]; simpl; [reflexivity|].
  rewrite H. destruct (q x); simpl; rewrite IH; reflexivity.
Qed.

(** C10: a later candle whose range covers the whole band of a base candle
    ([c.low <= b.low] and [c.high >= b.high]) is no touch, and such candles
    do not count against the zone: the zone of a base candle is kept as
    soon as the later candles that touch its band without covering it are
    at most [max_num_touches]. *)
Theorem engulfing_candle_is_no_touch (data : list Row) (max_num_touches : Z) (r : Row) :
  In r data -> is_base (candle_type r) = true ->
  (Z.of_nat (length (filter (fun r' => later_touch (candle r) (candle r')
                                       && negb (engulfs (candle r) (candle r')))
                            data)) <= max_num_touches)%Z ->
  (forall c, low c <= low (candle r) -> high (candle r) <= high c ->
             touches (candle r) c = false
             /\ forall later n,
                 scan_touches (candle r) (c :: later) n max_num_touches
                 = scan_touches (candle r) later n max_num_touches)
  /\ In (zone_of (candle r)) (find_zones data max_num_touches).
Proof.
  intros Hin Hb Hc. split.
  - intros c Hlow Hhigh.
    assert (E : touches (candle r) c = false).
    { apply engulfs_no_touch. unfold engulfs.
      rewrite andb_true_iff, !Qle_bool_iff. auto. }
    split; [exact E|]. intros later n. cbn [scan_touches]. rewrite E. reflexivity.
  - apply find_zones_kept; [exact Hin | exact Hb |].
    unfold touch_count.
    rewrite (filter_length_ext
               (fun r' => later_touch (candle r) (candle r'))
               (fun r' => later_touch (candle r) (candle r')
                          && negb (engulfs (candle r) (candle r')))); [exact Hc|].
    intros r'. rewrite later_touch_touches.
    destruct (engulfs (candle r) (candle r')) eqn:E.
    + rewrite (engulfs_no_touch _ _ E), !andb_false_r. reflexivity.
    + rewrite andb_true_r. reflexivity.
Qed.

Lemma engulfing_candle_is_no_touch_witness :
  In swept_base swept_series
  /\ is_base (candle_type swept_base) = true
  /\ (forall c, low c <= low (candle swept_base) ->
                high (candle swept_base) <= high c ->
                touches (candle swept_base) c = false
                /\ forall later n,
                    scan_touches (candle swept_base) (c :: later) n 0
                    = scan_touches (candle swept_base) later n 0)
  /\ In (zone_of (candle swept_base)) (find_zones swept_series 0).
Proof.
  assert (H1 : In swept_base swept_series) by (left; reflexivity).
  assert (H2 : is_base (candle_type swept_base) = true) by reflexivity.
  split; [exact H1|]. split; [exact H2|].
  apply (@engulfing_candle_is_no_touch swept_series 0%Z swept_base H1 H2).
  vm_compute. discriminate.
Defined.

(** ** The merger *)

(** The loop of [generate_chart] ends: a pass is repeated only when it
    made the frame shorter. *)
Lemma merge_loop_terminates (fuel : nat) (zones : list Zone) :
  (length zones < fuel)%nat -> merge_loop fuel zones <> None.
Proof.
  revert zones; induction fuel as [|fuel IH]; intros zones Hlt; [lia|].
  cbn [merge_loop].
  destruct (append_zones zones) as [appended|e]; [|discriminate].
  destruct (Nat.ltb_spec (length appended) (length zones)); [|discriminate].
  apply IH. lia.
Qed.

Lemma merged_zones_terminates (zones : list Zone) : merged_zones zones <> None.
Proof. apply merge_loop_terminates. lia. Qed.

(** C6 fails on the code: with no zone or one zone the loop of
    [append_zones] does not run, its variable [index] is never bound, and
    the line that builds [last_zone] from [index - 1] raises
    UnboundLocalError. *)
Theorem append_zones_degenerate_raises :
  append_zones [] = Raise UnboundLocalError
  /\ (forall z : Zone, append_zones [z] = Raise UnboundLocalError)
  /\ merged_zones [] = Some (Raise UnboundLocalError)
  /\ (forall z : Zone, merged_zones [z] = Some (Raise UnboundLocalError)).
Proof. repeat split. Qed.

(** C2 fails on the code: a pass over two overlapping zones emits the
    merged zone and then the last zone once more, so the count stays at
    two, the loop of [generate_chart] stops at once, and the zones it keeps
    are the two overlapping ones. *)
Theorem merge_fixed_point_overlaps :
  append_zones overlapping_pair = Ok [mkZone 1 18 10; mkZone 1 18 15]
  /\ merged_zones overlapping_pair = Some (Ok overlapping_pair)
  /\ non_overlapping overlapping_pair = false.
Proof. repeat split. Qed.

(** ** The classifier *)

Lemma nth_error_set_at (rows : list Row) (k i : nat) (t : CandleType) :
  nth_error (set_at rows k t) i
  = if Nat.eqb i k then option_map (set_candle_type t) (nth_error rows i)
    else nth_error rows i.
Proof.
  revert k i; induction rows as [|r rows IH]; intros k i.
  - cbn [set_at]. destruct i; destruct (Nat.eqb _ k); reflexivity.
  - destruct k as [|k], i as [|i]; cbn [set_at nth_error Nat.eqb]; try reflexivity.
    apply IH.
Qed.

Lemma map_momentum_set_at (rows : list Row) (k : nat) (t : CandleType) :
  map momentum (set_at rows k t) = map momentum rows.
Proof.
  revert k; induction rows as [|r rows IH]; intros [|k]; cbn [set_at map];
    try reflexivity.
  rewrite IH; reflexivity.
Qed.

Lemma at_pos_momentum (rows : list Row) (j : nat) :
  (j < length rows)%nat ->
  (r <- at_pos rows j ;; Ok (momentum r)) = Ok (nth j (map momentum rows) 0).
Proof.
  intros Hj. unfold at_pos.
  destruct (nth_error rows j) as [r|] eqn:E; [|apply nth_error_None in E; lia].
  cbn [bind]. f_equal.
  rewrite (nth_error_nth (map momentum rows) j 0 (x := momentum r));
    [reflexivity|].
  rewrite nth_error_map, E. reflexivity.
Qed.

(** *** Integer indices that are not negative *)

Lemma at_index_nat {R : Type} (rows : list R) (i : nat) :
  at_index rows (Z.of_nat i) = at_pos rows i.
Proof.
  unfold at_index. destruct (Z.ltb_spec (Z.of_nat i) 0); [lia|].
  rewrite Nat2Z.id. reflexivity.
Qed.

Lemma map_seq_shift {A : Type} (f : nat -> A) (a n : nat) :
  map (fun k => f (a + k)%nat) (seq 0 n) = map f (seq a n).
Proof.
  revert a; induction n as [|n IH]; intros a; cbn [seq map]; [reflexivity|].
  rewrite Nat.add_0_r. f_equal.
  rewrite <- seq_shift, map_map, <- (IH (S a)).
  apply map_ext. intros k. f_equal. lia.
Qed.

Lemma py_range_Z_nat (a b : nat) :
  py_range_Z (Z.of_nat a) (Z.of_nat b) = map Z.of_nat (seq a (b - a)).
Proof.
  unfold py_range_Z.
  replace (Z.to_nat (Z.of_nat b - Z.of_nat a)) with (b - a)%nat by lia.
  rewrite <- (map_seq_shift Z.of_nat a). apply map_ext. intros k. lia.
Qed.

Lemma py_range_Z_empty (a b : Z) : (b <= a)%Z -> py_range_Z a b = [].
Proof.
  intros H. unfold py_range_Z.
  replace (Z.to_nat (b - a)) with 0%nat by lia. reflexivity.
Qed.

Lemma py_range_Z_cons (a b : Z) :
  (a < b)%Z -> py_range_Z a b = a :: py_range_Z (a + 1) b.
Proof.
  intros H. unfold py_range_Z.
  replace (Z.to_nat (b - a)) with (S (Z.to_nat (b - (a + 1)))) by lia.
  cbn [seq map]. f_equal; [lia|].
  rewrite <- seq_shift, map_map. apply map_ext. intros k. lia.
Qed.

Lemma filter_all {A : Type} (p : A -> bool) (l : list A) :
  (forall x, In x l -> p x = true) -> filter p l = l.
Proof.
  induction l as [|x l IH]; intros H; cbn [filter]; [reflexivity|].
  rewrite (H x (or_introl eq_refl)), IH; [reflexivity|].
  intros y Hy; apply H; right; exact Hy.
Qed.

(** From [nocffz] on, the neighbours that the loop reads are the
    [nocffz] indices before [index] and the [nocffz] after it, in this
    order. *)
Lemma neighbours_nat (index nocffz : nat) :
  (nocffz <= index)%nat ->
  neighbours (Z.of_nat index) (Z.of_nat nocffz)
  = map Z.of_nat (neighbour_indices nocffz index).
Proof.
  intros Hle. unfold neighbours, neighbour_indices.
  replace (Z.of_nat index - Z.of_nat nocffz)%Z with (Z.of_nat (index - nocffz)) by lia.
  replace (Z.of_nat index + Z.of_nat nocffz + 1)%Z
    with (Z.of_nat (index + nocffz + 1)) by lia.
  rewrite py_range_Z_nat, filter_map_comm. f_equal.
  replace (index + nocffz + 1 - (index - nocffz))%nat with (nocffz + S nocffz)%nat by lia.
  rewrite seq_app, filter_app.
  replace (index - nocffz + nocffz)%nat with index by lia.
  cbn [seq filter]. rewrite Z.eqb_refl. cbn [negb].
  replace (index + 1)%nat with (S index) by lia.
  rewrite !filter_all; [reflexivity | |].
  - intros j Hj. apply in_seq in Hj.
    destruct (Z.eqb_spec (Z.of_nat j) (Z.of_nat index)); [lia | reflexivity].
  - intros j Hj. apply in_seq in Hj.
    destruct (Z.eqb_spec (Z.of_nat j) (Z.of_nat index)); [lia | reflexivity].
Qed.

Lemma neighbour_indices_bound (window i j : nat) :
  In j (neighbour_indices window i) -> (j <= i + window)%nat.
Proof.
  unfold neighbour_indices. intros H. apply in_app_or in H.
  destruct H as [H|H]; apply in_seq in H; lia.
Qed.

Lemma fbc_range_nat (nocffz len : nat) :
  py_range_Z (Z.of_nat nocffz) (Z.of_nat len - Z.of_nat nocffz)
  = map Z.of_nat (py_range nocffz (len - nocffz)).
Proof.
  unfold py_range_Z, py_range.
  replace (Z.to_nat (Z.of_nat len - Z.of_nat nocffz - Z.of_nat nocffz))
    with (len - nocffz - nocffz)%nat by lia.
  rewrite <- (map_seq_shift Z.of_nat nocffz). apply map_ext. intros k. lia.
Qed.

(** *** The loop *)

(** The loop of the classifier never raises for a window of at least one,
    and is the fold of [fbc_step] over its indices. *)
Lemma fbc_loop_fold (nocffz : nat) (ms : list Q) (indices : list nat) (rows : list Row) :
  (1 <= nocffz)%nat ->
  map momentum rows = ms ->
  (forall i, In i indices -> (nocffz <= i /\ i + nocffz < length ms)%nat) ->
  fbc_loop (Z.of_nat nocffz) rows (map Z.of_nat indices)
  = Ok (fold_left (fbc_step ms nocffz) indices rows).
Proof.
  intros Hw. revert rows; induction indices as [|index rest IH];
    intros rows Hms Hin; [reflexivity|].
  assert (Hlen : length rows = length ms) by (rewrite <- Hms, length_map; reflexivity).
  assert (Hidx : (nocffz <= index /\ index + nocffz < length ms)%nat)
    by (apply Hin; left; reflexivity).
  cbn [map fbc_loop fold_left].
  rewrite neighbours_nat by lia.
  rewrite (mapM_ok _ (fun z => nth (Z.to_nat z) (map momentum rows) 0)).
  2:{ intros z Hz. apply in_map_iff in Hz. destruct Hz as (j & <- & Hj).
      rewrite at_index_nat, Nat2Z.id. apply at_pos_momentum.
      apply neighbour_indices_bound in Hj. lia. }
  cbn [bind]. rewrite map_map.
  rewrite (map_ext (fun x => nth (Z.to_nat (Z.of_nat x)) (map momentum rows) 0)
                   (fun j => nth j (map momentum rows) 0))
    by (intros j; rewrite Nat2Z.id; reflexivity).
  unfold np_mean.
  destruct (Z.eqb_spec (2 * Z.of_nat nocffz) 0) as [E|_]; [lia|].
  cbn [bind]. rewrite at_index_nat.
  pose proof (@at_pos_momentum rows index ltac:(lia)) as Hat.
  unfold at_pos in *.
  destruct (nth_error rows index) as [r|] eqn:Er;
    [|apply nth_error_None in Er; lia].
  cbn [bind np_gt] in *. apply Ok_inj in Hat.
  unfold fbc_step at 2. unfold base_test, Q_of_nat.
  rewrite Hms in *. rewrite Hat, Nat2Z.id.
  replace (Z.of_nat (2 * nocffz)) with (2 * Z.of_nat nocffz)%Z by lia.
  destruct (Qltb _ _).
  - apply IH; [rewrite map_momentum_set_at; exact Hms|].
    intros i Hi; apply Hin; right; exact Hi.
  - apply IH; [exact Hms|]. intros i Hi; apply Hin; right; exact Hi.
Qed.

Lemma fbc_step_nth (ms : list Q) (nocffz k : nat) (rows : list Row) (i : nat) (r : Row) :
  nth_error rows i = Some r ->
  exists r',
    nth_error (fbc_step ms nocffz rows k) i = Some r'
    /\ candle r' = candle r /\ momentum r' = momentum r
    /\ candle_type r'
       = if Nat.eqb i k && base_test ms nocffz k then Base else candle_type r.
Proof.
  intros Hr. unfold fbc_step.
  destruct (base_test ms nocffz k).
  - rewrite nth_error_set_at, Hr.
    destruct (Nat.eqb i k); cbn [option_map andb]; eexists; split;
      try reflexivity; auto.
  - rewrite andb_false_r. exists r. auto.
Qed.

Lemma fbc_fold_nth (ms : list Q) (nocffz : nat) (indices : list nat)
      (rows : list Row) (i : nat) (r : Row) :
  nth_error rows i = Some r ->
  exists r',
    nth_error (fold_left (fbc_step ms nocffz) indices rows) i = Some r'
    /\ candle r' = candle r /\ momentum r' = momentum r
    /\ candle_type r'
       = if existsb (Nat.eqb i) indices && base_test ms nocffz i then Base
         else candle_type r.
Proof.
  revert rows r; induction indices as [|k rest IH]; intros rows r Hr.
  - exists r. auto.
  - cbn [fold_left existsb].
    destruct (@fbc_step_nth ms nocffz k rows i r Hr) as (r1 & H1 & Hc1 & Hm1 & Ht1).
    destruct (IH _ _ H1) as (r' & H' & Hc' & Hm' & Ht').
    exists r'. split; [exact H'|]. split; [congruence|]. split; [congruence|].
    rewrite Ht', Ht1.
    destruct (Nat.eqb_spec i k) as [->|Hne]; cbn [orb andb].
    + destruct (base_test ms nocffz k), (existsb (Nat.eqb k) rest); reflexivity.
    + reflexivity.
Qed.

Lemma fold_fbc_step_length (ms : list Q) (nocffz : nat) (indices : list nat)
      (rows : list Row) :
  length (fold_left (fbc_step ms nocffz) indices rows) = length rows.
Proof.
  revert rows; induction indices as [|k rest IH]; intros rows; [reflexivity|].
  cbn [fold_left]. rewrite IH. unfold fbc_step.
  destruct (base_test ms nocffz k); [|reflexivity].
  rewrite <- (length_map momentum), map_momentum_set_at, length_map. reflexivity.
Qed.

Lemma nth_momentum_at (data : list Candle) (j : nat) :
  nth j (map (fun c => Qabs (fl_sub (close c) (open c))) data) 0 = momentum_at data j.
Proof.
  unfold momentum_at.
  destruct (nth_error data j) as [c|] eqn:E.
  - apply nth_error_nth. rewrite nth_error_map, E. reflexivity.
  - apply nth_overflow. rewrite length_map. apply nth_error_None. exact E.
Qed.

(** The test of the loop is the comparison of the rule: the two read the
    same momenta in the same order. *)
Lemma base_test_neighbour_mean (data : list Candle) (window i : nat) :
  base_test (map (fun c => Qabs (fl_sub (close c) (open c))) data) window i
  = Qltb (fl_mul 6 (momentum_at data i)) (neighbour_mean data window i).
Proof.
  unfold base_test, neighbour_mean.
  rewrite nth_momentum_at.
  rewrite (map_ext _ (momentum_at data) (nth_momentum_at data)).
  reflexivity.
Qed.

Lemma existsb_py_range (i a b : nat) :
  existsb (Nat.eqb i) (py_range a b) = (a <=? i)%nat && (i <? b)%nat.
Proof.
  unfold py_range.
  destruct (existsb (Nat.eqb i) (seq a (b - a))) eqn:E.
  - apply existsb_exists in E. destruct E as (j & Hj & Hij).
    apply Nat.eqb_eq in Hij. subst j. apply in_seq in Hj.
    symmetry. apply andb_true_iff. split; [apply Nat.leb_le | apply Nat.ltb_lt]; lia.
  - symmetry. apply andb_false_iff.
    destruct (Nat.leb_spec a i) as [Ha|Ha]; [right | left; reflexivity].
    destruct (Nat.ltb_spec i b) as [Hb|Hb]; [|reflexivity].
    assert (Ht : existsb (Nat.eqb i) (seq a (b - a)) = true).
    { apply existsb_exists. exists i. split; [apply in_seq; lia | apply Nat.eqb_refl]. }
    congruence.
Qed.

(** With a window of zero the mean is a division by zero. *)
Lemma find_base_candles_zero_window (c : Candle) (data : list Candle) :
  find_base_candles (c :: data) 0 = Raise ZeroDivisionError.
Proof.
  unfold find_base_candles. rewrite py_range_Z_cons by (cbn [length map]; lia).
  reflexivity.
Qed.

(** The rows of the classifier, one by one, for a window of at least one. *)
Lemma find_base_candles_rows (data : list Candle) (window : nat) :
  (1 <= window)%nat ->
  exists out,
    find_base_candles data (Z.of_nat window) = Ok out
    /\ length out = length data
    /\ forall i c,
        nth_error data i = Some c ->
        exists r,
          nth_error out i = Some r
          /\ candle r = c
          /\ momentum r = momentum_at data i
          /\ candle_type r
             = if (window <=? i)%nat && (i <? length data - window)%nat
                  && Qltb (fl_mul 6 (momentum_at data i)) (neighbour_mean data window i)
               then Base else Momentum.
Proof.
  intros Hw. unfold find_base_candles.
  set (rows := map (fun c => mkRow c Momentum (Qabs (fl_sub (close c) (open c)))) data).
  set (ms := map (fun c => Qabs (fl_sub (close c) (open c))) data).
  assert (Hms : map momentum rows = ms)
    by (unfold rows, ms; rewrite map_map; reflexivity).
  assert (Hlen : length rows = length data) by (unfold rows; apply length_map).
  assert (Hlms : length ms = length data) by (unfold ms; apply length_map).
  exists (fold_left (fbc_step ms window) (py_range window (length rows - window)) rows).
  split; [|split].
  - rewrite fbc_range_nat. apply fbc_loop_fold; [exact Hw | exact Hms |].
    intros i Hi. unfold py_range in Hi. apply in_seq in Hi. lia.
  - rewrite fold_fbc_step_length. exact Hlen.
  - intros i c Hc.
    assert (Hr : nth_error rows i
                 = Some (mkRow c Momentum (Qabs (fl_sub (close c) (open c)))))
      by (unfold rows; rewrite nth_error_map, Hc; reflexivity).
    destruct (@fbc_fold_nth ms window (py_range window (length rows - window))
                            rows i _ Hr) as (r & H1 & H2 & H3 & H4).
    exists r. split; [exact H1|]. split; [exact H2|].
    split; [rewrite H3; unfold momentum_at; rewrite Hc; reflexivity|].
    rewrite existsb_py_range, Hlen in H4. cbn [candle_type] in H4.
    rewrite H4. destruct (window <=? i)%nat; [|reflexivity].
    destruct (i <? length data - window)%nat; [|reflexivity].
    cbn [andb]. unfold ms. rewrite base_test_neighbour_mean.
    reflexivity.
Qed.

(** C4: for a window of at least one the classifier returns the candles in
    their order, each with momentum [|close - open|]; the first [window] and
    the last [window] candles have type "momentum"; every other candle i
    has type "base" when the mean momentum of its [2 * window] neighbours
    (indices [i - window .. i + window] without [i]) is greater than 6 times
    its own momentum, and type "momentum" when it is not.  The difference,
    the mean and the product are the code's float operations: the momenta
    of the neighbours are added up in the order of their indices, each
    operation rounding to binary64. *)
Theorem classifier_rule (data : list Candle) (window : nat) :
  (1 <= window)%nat ->
  exists out,
    find_base_candles data (Z.of_nat window) = Ok out
    /\ length out = length data
    /\ forall i c,
        nth_error data i = Some c ->
        exists r,
          nth_error out i = Some r
          /\ candle r = c
          /\ momentum r = Qabs (fl_sub (close c) (open c))
          /\ ((i < window \/ length data <= i + window)%nat ->
              candle_type r = Momentum)
          /\ ((window <= i /\ i + window < length data)%nat ->
              (fl_mul 6 (Qabs (fl_sub (close c) (open c)))
               < neighbour_mean data window i ->
               candle_type r = Base)
              /\ (~ fl_mul 6 (Qabs (fl_sub (close c) (open c)))
                    < neighbour_mean data window i ->
                  candle_type r = Momentum)).
Proof.
  intros Hw.
  destruct (@find_base_candles_rows data window Hw) as (out & E & Hlen & Hrows).
  exists out. split; [exact E|]. split; [exact Hlen|].
  intros i c Hc. destruct (Hrows i c Hc) as (r & H1 & H2 & H3 & H4).
  assert (Hm : momentum_at data i = Qabs (fl_sub (close c) (open c)))
    by (unfold momentum_at; rewrite Hc; reflexivity).
  rewrite Hm in H3, H4.
  exists r. split; [exact H1|]. split; [exact H2|]. split; [exact H3|].
  generalize dependent (neighbour_mean data window i).
  generalize (fl_mul 6 (Qabs (fl_sub (close c) (open c)))).
  intros own mean H4.
  split.
  - intros Hout. rewrite H4.
    destruct (Nat.leb_spec window i); [|reflexivity].
    destruct (Nat.ltb_spec i (length data - window)); [lia | reflexivity].
  - intros [Hlo Hhi].
    destruct (Nat.leb_spec window i); [|lia].
    destruct (Nat.ltb_spec i (length data - window)); [|lia].
    cbn [andb] in H4.
    split; intros Hcmp.
    + apply Qltb_lt in Hcmp. rewrite Hcmp in H4. exact H4.
    + destruct (Qltb own mean) eqn:E'; [|exact H4].
      apply Qltb_lt in E'. exfalso. exact (Hcmp E').
Qed.

Lemma classifier_rule_witness :
  (1 <= 6)%nat
  /\ exists out,
      find_base_candles rounding_series (Z.of_nat 6) = Ok out
      /\ length out = length rounding_series
      /\ forall i c,
          nth_error rounding_series i = Some c ->
          exists r,
            nth_error out i = Some r
            /\ candle r = c
            /\ momentum r = Qabs (fl_sub (close c) (open c))
            /\ ((i < 6 \/ length rounding_series <= i + 6)%nat ->
                candle_type r = Momentum)
            /\ ((6 <= i /\ i + 6 < length rounding_series)%nat ->
                (fl_mul 6 (Qabs (fl_sub (close c) (open c)))
                 < neighbour_mean rounding_series 6 i ->
                 candle_type r = Base)
                /\ (~ fl_mul 6 (Qabs (fl_sub (close c) (open c)))
                      < neighbour_mean rounding_series 6 i ->
                    candle_type r = Momentum)).
Proof.
  split; [lia | apply (@classifier_rule rounding_series 6); lia].
Defined.

(** ** Timeframe tokens *)

(** *** Rocq strings as Python strings *)

Lemma utf8_decode_snoc_ascii (bytes : list N) (b : N) :
  (b < 128)%N -> utf8_decode (bytes ++ [b]) = utf8_decode bytes ++ [b].
Proof.
  intros Hb. unfold utf8_decode. rewrite fold_left_app. cbn [fold_left].
  generalize (fold_left utf8_step bytes (mk_utf8 [] None)). intros st.
  assert (Hs : forall out, utf8_start out b = mk_utf8 (b :: out) None).
  { intros out. unfold utf8_start.
    destruct (N.ltb_spec b 128); [reflexivity | lia]. }
  unfold utf8_step, utf8_finish.
  destruct (pending st) as [[[bits more] least]|].
  - destruct (N.leb_spec 128 b); [lia|]. cbn [andb].
    rewrite Hs. reflexivity.
  - rewrite Hs. reflexivity.
Qed.

Lemma utf8_step_progress (st : utf8_state) (b : N) :
  utf8_finish (utf8_step st b) <> [].
Proof.
  assert (Hr : forall (x : N) l, rev (x :: l) <> []).
  { intros x l H. cbn [rev] in H. apply app_eq_nil in H. destruct H; discriminate. }
  assert (Hs : forall out, utf8_finish (utf8_start out b) <> []).
  { intros out. unfold utf8_start, utf8_finish.
    destruct (b <? 128)%N; [apply Hr|].
    destruct ((194 <=? b)%N && (b <? 224)%N); [apply Hr|].
    destruct ((224 <=? b)%N && (b <? 240)%N); [apply Hr|].
    destruct ((240 <=? b)%N && (b <? 245)%N); apply Hr. }
  unfold utf8_step.
  destruct (pending st) as [[[bits more] least]|]; [|apply Hs].
  destruct ((128 <=? b)%N && (b <? 192)%N); [|apply Hs].
  destruct more; unfold utf8_finish; apply Hr.
Qed.

Lemma utf8_decode_nonempty (bytes : list N) :
  bytes <> [] -> utf8_decode bytes <> [].
Proof.
  intros Hne. destruct (exists_last Hne) as (p & b & ->).
  unfold utf8_decode. rewrite fold_left_app. apply utf8_step_progress.
Qed.

Lemma str_of_string_nonempty (c : ascii) (s : string) :
  str_of_string (String c s) <> [].
Proof. apply utf8_decode_nonempty. discriminate. Qed.

Lemma str_of_token (prefix : list ascii) (suffix : ascii) :
  (N_of_ascii suffix < 128)%N ->
  str_of_string (token prefix suffix)
  = str_of_string (string_of_list_ascii prefix) ++ [N_of_ascii suffix].
Proof.
  intros Hs. unfold str_of_string, token.
  rewrite !list_ascii_of_string_of_list_ascii, map_app.
  apply utf8_decode_snoc_ascii. exact Hs.
Qed.

(** *** [convert_timeframe] on a prefix and a suffix *)

Lemma convert_timeframe_str_snoc (prefix : str) (suffix : N) :
  convert_timeframe_str (prefix ++ [suffix])
  = match py_int prefix with
    | Ok number =>
        if (suffix =? chr "m")%N then Ok (number * 60000)%Z
        else if (suffix =? chr "h")%N then Ok (number * 60000 * 60)%Z
        else if (suffix =? chr "d")%N then Ok (number * 60000 * 60 * 24)%Z
        else if (suffix =? chr "w")%N then Ok (number * 60000 * 60 * 24 * 7)%Z
        else Ok 0%Z
    | Raise _ => Ok 0%Z
    end.
Proof.
  unfold convert_timeframe_str. rewrite rev_unit, rev_involutive. reflexivity.
Qed.

Lemma convert_timeframe_token (prefix : list ascii) (suffix : ascii) :
  (N_of_ascii suffix < 128)%N ->
  convert_timeframe (token prefix suffix)
  = convert_timeframe_str
      (str_of_string (string_of_list_ascii prefix) ++ [N_of_ascii suffix]).
Proof.
  intros Hs. unfold convert_timeframe. rewrite (@str_of_token prefix suffix Hs). reflexivity.
Qed.

(** *** Digits *)

Lemma decimal_value_bound (c d : N) : decimal_value c = Some d -> (d < 10)%N.
Proof.
  unfold decimal_value.
  destruct (find _ decimal_runs) as [r|]; [|discriminate].
  intros H. injection H as <-. apply N.mod_lt. discriminate.
Qed.

(** Below 127 the decimal digits are the ten ASCII digits. *)
Lemma decimal_value_ascii (c : N) :
  (c < 127)%N ->
  decimal_value c = if is_digit c then Some (c - chr "0")%N else None.
Proof.
  intros Hc.
  assert (Hall : forallb (fun c => match decimal_value c,
                                         (if is_digit c then Some (c - chr "0")%N
                                          else None) with
                                   | Some a, Some b => (a =? b)%N
                                   | None, None => true
                                   | _, _ => false
                                   end)
                         (map N.of_nat (seq 0 127)) = true)
    by (vm_compute; reflexivity).
  rewrite forallb_forall in Hall.
  specialize (Hall c).
  assert (Hin : In c (map N.of_nat (seq 0 127))).
  { apply in_map_iff. exists (N.to_nat c). split; [apply N2Nat.id|].
    apply in_seq. lia. }
  specialize (Hall Hin).
  destruct (decimal_value c) as [a|], (is_digit c); try discriminate;
    try reflexivity.
  apply N.eqb_eq in Hall. subst a. reflexivity.
Qed.

(** No blank is a decimal digit. *)
Lemma unicode_space_no_decimal (c : N) :
  existsb (N.eqb c) unicode_spaces = true -> decimal_value c = None.
Proof.
  intros H. apply existsb_exists in H. destruct H as (x & Hx & E).
  apply N.eqb_eq in E. subst x.
  assert (Hall : forallb (fun c => match decimal_value c with
                                   | None => true
                                   | Some _ => false
                                   end) unicode_spaces = true)
    by (vm_compute; reflexivity).
  rewrite forallb_forall in Hall. specialize (Hall c Hx).
  destruct (decimal_value c); [discriminate | reflexivity].
Qed.

(** [int()] reads a decimal digit of any script as the ASCII digit of its
    value. *)
Lemma to_ascii_decimal (c d : N) :
  decimal_value c = Some d -> to_ascii c = (chr "0" + d)%N /\ (d < 10)%N.
Proof.
  intros H. split; [|exact (@decimal_value_bound c d H)].
  unfold to_ascii. destruct (N.ltb_spec c 127) as [Hc|Hc].
  - rewrite (@decimal_value_ascii c Hc) in H. unfold is_digit in *.
    change (chr "0") with 48%N in *. change (chr "9") with 57%N in *.
    destruct (N.leb_spec 48 c); [|discriminate].
    destruct (N.leb_spec c 57); [|discriminate].
    cbn [andb] in H. injection H as <-. lia.
  - destruct (existsb (N.eqb c) unicode_spaces) eqn:Es.
    + rewrite (@unicode_space_no_decimal c Es) in H. discriminate.
    + rewrite H. reflexivity.
Qed.

Lemma ascii_digit_facts (d : N) :
  (d < 10)%N ->
  is_digit (chr "0" + d) = true
  /\ is_space (chr "0" + d) = false
  /\ (chr "0" + d =? chr "-")%N = false
  /\ (chr "0" + d =? chr "+")%N = false
  /\ digit_value (chr "0" + d) = Z.of_N d.
Proof.
  intros Hd. unfold is_digit, is_space, digit_value.
  change (chr "0") with 48%N. change (chr "9") with 57%N.
  change (chr " ") with 32%N. change (chr "-") with 45%N.
  change (chr "+") with 43%N.
  repeat split.
  - apply andb_true_intro. split; apply N.leb_le; lia.
  - apply orb_false_iff. split.
    + apply andb_false_iff. right. apply N.leb_gt. lia.
    + apply N.eqb_neq. lia.
  - apply N.eqb_neq. lia.
  - apply N.eqb_neq. lia.
  - f_equal. lia.
Qed.

Lemma is_decimal_value (c : N) :
  is_decimal c = true -> exists d, decimal_value c = Some d.
Proof.
  unfold is_decimal. destruct (decimal_value c) as [d|]; [eauto | discriminate].
Qed.

Lemma to_ascii_digits (digits : str) :
  forallb is_decimal digits = true ->
  forallb is_digit (map to_ascii digits) = true.
Proof.
  induction digits as [|c l IH]; [reflexivity|].
  cbn [forallb map]. intros H. apply andb_prop in H. destruct H as [Hc Hl].
  destruct (@is_decimal_value c Hc) as [d Hd].
  destruct (@to_ascii_decimal c d Hd) as [-> Hlt].
  destruct (@ascii_digit_facts d Hlt) as (-> & _).
  cbn [andb]. apply IH. exact Hl.
Qed.

Lemma digit_not_space (c : N) : is_digit c = true -> is_space c = false.
Proof.
  unfold is_digit, is_space.
  change (chr "0") with 48%N. change (chr "9") with 57%N. change (chr " ") with 32%N.
  intros H. apply andb_prop in H. destruct H as [H1 H2].
  apply N.leb_le in H1. apply N.leb_le in H2.
  apply orb_false_iff. split.
  - apply andb_false_iff. right. apply N.leb_gt. lia.
  - apply N.eqb_neq. lia.
Qed.

Lemma digit_not_sign (c : N) :
  is_digit c = true -> (c =? chr "-")%N = false /\ (c =? chr "+")%N = false.
Proof.
  unfold is_digit.
  change (chr "0") with 48%N. change (chr "9") with 57%N.
  change (chr "-") with 45%N. change (chr "+") with 43%N.
  intros H. apply andb_prop in H. destruct H as [H1 H2].
  apply N.leb_le in H1. apply N.leb_le in H2.
  split; apply N.eqb_neq; lia.
Qed.

Lemma lstrip_digit (c : N) (s : list N) :
  is_digit c = true -> lstrip (c :: s) = c :: s.
Proof.
  intros H. cbn [lstrip]. rewrite (@digit_not_space c H). reflexivity.
Qed.

Lemma strip_digits (ds : list N) : forallb is_digit ds = true -> strip ds = ds.
Proof.
  intros H. rewrite forallb_forall in H. unfold strip.
  assert (E1 : lstrip ds = ds).
  { destruct ds as [|c s]; [reflexivity|].
    apply lstrip_digit. apply H. left; reflexivity. }
  rewrite E1.
  assert (E2 : lstrip (rev ds) = rev ds).
  { destruct (rev ds) as [|c s] eqn:E; [reflexivity|].
    apply lstrip_digit. apply H. apply in_rev. rewrite E. left; reflexivity. }
  rewrite E2. apply rev_involutive.
Qed.

Lemma int_digits_decimal (s : list N) (acc : Z) (after_digit : bool) :
  forallb is_digit s = true -> s <> [] \/ after_digit = true ->
  int_digits acc after_digit s
  = Ok (fold_left (fun a c => (10 * a + digit_value c)%Z) s acc).
Proof.
  revert acc after_digit; induction s as [|c s IH]; intros acc b Hd Hne.
  - destruct Hne as [Hne| ->]; [contradiction | reflexivity].
  - cbn [forallb] in Hd. apply andb_prop in Hd. destruct Hd as [Hc Hs].
    cbn [int_digits fold_left]. rewrite Hc.
    apply IH; [exact Hs | right; reflexivity].
Qed.

Lemma decimal_to_ascii (digits : str) (acc : Z) :
  forallb is_decimal digits = true ->
  fold_left (fun a c => (10 * a + digit_value c)%Z) (map to_ascii digits) acc
  = fold_left (fun a c => (10 * a + match decimal_value c with
                                    | Some d => Z.of_N d
                                    | None => 0
                                    end)%Z) digits acc.
Proof.
  revert acc; induction digits as [|c l IH]; intros acc H; [reflexivity|].
  cbn [forallb] in H. apply andb_prop in H. destruct H as [Hc Hl].
  destruct (@is_decimal_value c Hc) as [d Hd].
  destruct (@to_ascii_decimal c d Hd) as [Ea Hlt].
  destruct (@ascii_digit_facts d Hlt) as (_ & _ & _ & _ & Ev).
  cbn [map fold_left]. rewrite Ea, Ev, Hd. apply IH. exact Hl.
Qed.

(** The digits of a literal that is all digits. *)
Lemma int_literal_digits (ds : list N) :
  ds <> [] -> forallb is_digit ds = true ->
  int_literal ds
  = if (max_str_digits <? length ds)%nat then Raise ValueError
    else Ok (fold_left (fun a c => (10 * a + digit_value c)%Z) ds 0%Z).
Proof.
  intros Hne Hd. unfold int_literal.
  rewrite (@int_digits_decimal ds 0%Z false Hd (or_introl Hne)). cbn [bind].
  rewrite filter_all; [reflexivity|].
  apply forallb_forall. exact Hd.
Qed.

Lemma py_int_all_digits (digits : str) :
  digits <> [] -> forallb is_decimal digits = true ->
  py_int digits
  = if (max_str_digits <? length digits)%nat then Raise ValueError
    else Ok (decimal digits).
Proof.
  intros Hne Hd. unfold py_int.
  pose proof (@to_ascii_digits digits Hd) as Ha.
  rewrite (@strip_digits (map to_ascii digits) Ha).
  destruct digits as [|c l]; [contradiction|].
  cbn [map] in *.
  assert (Hc : is_digit (to_ascii c) = true)
    by (cbn [forallb] in Ha; apply andb_prop in Ha; tauto).
  destruct (@digit_not_sign (to_ascii c) Hc) as [-> ->].
  change (to_ascii c :: map to_ascii l) with (map to_ascii (c :: l)) in *.
  rewrite int_literal_digits; [|discriminate | exact Ha].
  rewrite length_map, (@decimal_to_ascii (c :: l) 0%Z Hd). reflexivity.
Qed.

(** *** Characters that no literal has *)

(** A character that is no digit and no underscore stops the scan. *)
Lemma int_digits_rejects (c : N) (s : list N) (acc : Z) (after_digit : bool) :
  In c s -> is_digit c = false -> (c =? chr "_")%N = false ->
  int_digits acc after_digit s = Raise ValueError.
Proof.
  intros Hin Hd Hu. revert acc after_digit.
  induction s as [|x s IH]; intros acc b; [contradiction|].
  cbn [int_digits]. destruct Hin as [->|Hin].
  - rewrite Hd, Hu. reflexivity.
  - destruct (is_digit x); [apply IH; exact Hin|].
    destruct ((x =? chr "_")%N && b); [apply IH; exact Hin | reflexivity].
Qed.

Lemma int_literal_rejects (c : N) (s : list N) :
  In c s -> is_digit c = false -> (c =? chr "_")%N = false ->
  int_literal s = Raise ValueError.
Proof.
  intros Hin Hd Hu. unfold int_literal.
  rewrite (@int_digits_rejects c s 0%Z false Hin Hd Hu). reflexivity.
Qed.

Lemma lstrip_keeps (c : N) (s : list N) :
  In c s -> is_space c = false -> In c (lstrip s).
Proof.
  intros Hin Hs. induction s as [|x s IH]; [contradiction|].
  cbn [lstrip]. destruct (is_space x) eqn:E; [|exact Hin].
  destruct Hin as [->|Hin]; [congruence | apply IH; exact Hin].
Qed.

Lemma is_digit_is_decimal (c : N) : is_digit c = true -> is_decimal c = true.
Proof.
  intros H. unfold is_decimal.
  assert (Hc : (c < 127)%N).
  { unfold is_digit in H. change (chr "9") with 57%N in H.
    apply andb_prop in H. destruct H as [_ H]. apply N.leb_le in H. lia. }
  rewrite (@decimal_value_ascii c Hc), H. reflexivity.
Qed.

(** What [int()] makes of a foreign character is foreign to the parser. *)
Lemma to_ascii_foreign (c : N) :
  foreign_char c = true ->
  is_digit (to_ascii c) = false /\ is_space (to_ascii c) = false
  /\ (to_ascii c =? chr "_")%N = false
  /\ (to_ascii c =? chr "+")%N = false /\ (to_ascii c =? chr "-")%N = false.
Proof.
  unfold foreign_char. rewrite !andb_true_iff, !negb_true_iff.
  intros [[[[[Hd Hs] Hu] H1] H2] H3].
  unfold to_ascii. destruct (c <? 127)%N.
  - repeat split; try assumption.
    destruct (is_digit c) eqn:E; [|reflexivity].
    apply is_digit_is_decimal in E. congruence.
  - rewrite Hu. unfold is_decimal in Hd.
    destruct (decimal_value c); [discriminate|].
    repeat split; reflexivity.
Qed.

Lemma py_int_rejects (c : N) (s : str) :
  In c s -> foreign_char c = true -> py_int s = Raise ValueError.
Proof.
  intros Hin Hf.
  destruct (@to_ascii_foreign c Hf) as (Hd & Hs & Hu & Hp & Hm).
  assert (Hin' : In (to_ascii c) (strip (map to_ascii s))).
  { unfold strip. apply -> in_rev. apply lstrip_keeps; [|exact Hs].
    apply -> in_rev. apply lstrip_keeps; [|exact Hs].
    apply in_map. exact Hin. }
  unfold py_int. destruct (strip (map to_ascii s)) as [|x t]; [reflexivity|].
  destruct (N.eqb_spec x (chr "-")) as [->|Hx1].
  - destruct Hin' as [E|Hin']; [rewrite <- E, N.eqb_refl in Hm; discriminate|].
    rewrite (@int_literal_rejects (to_ascii c) t Hin' Hd Hu). reflexivity.
  - destruct (N.eqb_spec x (chr "+")) as [->|Hx2].
    + destruct Hin' as [E|Hin']; [rewrite <- E, N.eqb_refl in Hp; discriminate|].
      apply (@int_literal_rejects (to_ascii c) t Hin' Hd Hu).
    + apply (@int_literal_rejects (to_ascii c) (x :: t) Hin' Hd Hu).
Qed.

Lemma last_timestamp_zero (current_timestamp : Z) (timeframe_str : string) :
  convert_timeframe timeframe_str = Ok 0%Z ->
  last_timestamp_in_timeframe current_timestamp timeframe_str
  = Raise ZeroDivisionError.
Proof.
  intros E. unfold last_timestamp_in_timeframe. rewrite E. reflexivity.
Qed.

(** C9, as stated, fails: [int()] refuses a literal of more than 4300
    digits, the bare [except] turns the refusal into the duration 0, and a
    token of 4301 digits followed by m is not mapped to digits x 60000. *)
Lemma timeframe_digits_counterexample :
  ~ (forall digits suffix factor,
        digits <> [] -> forallb is_decimal digits = true ->
        unit_ms suffix = Some factor ->
        convert_timeframe_str (digits ++ [suffix]) = Ok (decimal digits * factor)%Z).
Proof.
  intros H.
  assert (Hne : long_token_digits <> []) by discriminate.
  assert (Hd : forallb is_decimal long_token_digits = true)
    by (vm_compute; reflexivity).
  specialize (H long_token_digits (chr "m") 60000%Z Hne Hd eq_refl).
  rewrite convert_timeframe_str_snoc, (@py_int_all_digits long_token_digits Hne Hd) in H.
  assert (Hlong : (max_str_digits <? length long_token_digits)%nat = true)
    by (vm_compute; reflexivity).
  rewrite Hlong in H. apply Ok_inj in H.
  assert (Hpos : (0 < decimal long_token_digits)%Z) by (vm_compute; reflexivity).
  lia.
Qed.

(** C9, amended: a token of one to 4300 decimal digits followed by m, h,
    d or w is mapped to digits x 60000, x 60000*60, x 60000*60*24,
    x 60000*60*24*7; a token whose suffix is none of the four, or whose
    prefix [int()] rejects (as it does more than 4300 digits, and every
    prefix with a character that is no digit, sign, underscore or blank),
    yields the duration 0, and [get_candles] does not go on with that
    duration: its first use, the remainder of the current time by it,
    raises ZeroDivisionError. *)
Theorem timeframe_tokens (current_timestamp : Z) :
  (forall digits suffix factor,
      digits <> [] -> forallb is_decimal digits = true ->
      (length digits <= 4300)%nat ->
      unit_ms suffix = Some factor ->
      convert_timeframe_str (digits ++ [suffix]) = Ok (decimal digits * factor)%Z)
  /\ (forall prefix suffix,
         unit_ms suffix = None \/ py_int prefix = Raise ValueError ->
         convert_timeframe_str (prefix ++ [suffix]) = Ok 0%Z)
  /\ (forall digits,
         forallb is_decimal digits = true -> (4300 < length digits)%nat ->
         py_int digits = Raise ValueError)
  /\ (forall prefix c,
         In c prefix -> foreign_char c = true -> py_int prefix = Raise ValueError)
  /\ (forall timeframe_str,
         convert_timeframe timeframe_str
         = convert_timeframe_str (str_of_string timeframe_str)
         /\ (convert_timeframe timeframe_str = Ok 0%Z ->
             last_timestamp_in_timeframe current_timestamp timeframe_str
             = Raise ZeroDivisionError)).
Proof.
  split; [|split; [|split; [|split]]].
  - intros ds u f Hne Hd Hlen Hu.
    rewrite convert_timeframe_str_snoc, (@py_int_all_digits ds Hne Hd).
    destruct (Nat.ltb_spec max_str_digits (length ds)) as [Hlt|_];
      [unfold max_str_digits in Hlt; lia|].
    unfold unit_ms in Hu.
    destruct (u =? chr "m")%N; [injection Hu as <-; reflexivity|].
    destruct (u =? chr "h")%N; [injection Hu as <-; f_equal; lia|].
    destruct (u =? chr "d")%N; [injection Hu as <-; f_equal; lia|].
    destruct (u =? chr "w")%N; [injection Hu as <-; f_equal; lia|].
    discriminate.
  - intros p u H. rewrite convert_timeframe_str_snoc. destruct H as [H|H].
    + unfold unit_ms in H.
      destruct (py_int p); [|reflexivity].
      destruct (u =? chr "m")%N; [discriminate|].
      destruct (u =? chr "h")%N; [discriminate|].
      destruct (u =? chr "d")%N; [discriminate|].
      destruct (u =? chr "w")%N; [discriminate|reflexivity].
    + rewrite H. reflexivity.
  - intros ds Hd Hlen.
    assert (Hne : ds <> []) by (intros ->; cbn in Hlen; lia).
    rewrite (@py_int_all_digits ds Hne Hd).
    destruct (Nat.ltb_spec max_str_digits (length ds)) as [_|Hge];
      [reflexivity | unfold max_str_digits in Hge; lia].
  - intros p c. apply py_int_rejects.
  - intros s. split; [reflexivity | apply last_timestamp_zero].
Qed.

(** ** Worked examples *)

Example convert_timeframe_4h : convert_timeframe "4h" = Ok 14400000%Z.
Proof. vm_compute. reflexivity. Qed.

Example convert_timeframe_1w : convert_timeframe "1w" = Ok 604800000%Z.
Proof. vm_compute. reflexivity. Qed.

Example convert_timeframe_unknown_suffix : convert_timeframe "15x" = Ok 0%Z.
Proof. vm_compute. reflexivity. Qed.

Example convert_timeframe_bad_prefix : convert_timeframe "fourh" = Ok 0%Z.
Proof. vm_compute. reflexivity. Qed.

Example convert_timeframe_signed : convert_timeframe "-5m" = Ok (-300000)%Z.
Proof. vm_compute. reflexivity. Qed.

Example convert_timeframe_empty : convert_timeframe EmptyString = Raise IndexError.
Proof. vm_compute. reflexivity. Qed.

Example convert_timeframe_arabic_digit :
  str_of_string (string_of_list_ascii
                   [ascii_of_nat 217; ascii_of_nat 163; "m"%char]) = [1635; chr "m"]%N
  /\ convert_timeframe_str [1635; chr "m"]%N = Ok 180000%Z.
Proof. split; vm_compute; reflexivity. Qed.

Example convert_timeframe_no_break_space :
  convert_timeframe_str [160; chr "5"; chr "m"]%N = Ok 300000%Z.
Proof. vm_compute. reflexivity. Qed.

Example convert_timeframe_control_character :
  convert_timeframe_str [28; chr "5"; chr "m"]%N = Ok 0%Z.
Proof. vm_compute. reflexivity. Qed.

Example get_candles_unknown_suffix :
  last_timestamp_in_timeframe 1700000000000 "15x" = Raise ZeroDivisionError.
Proof. vm_compute. reflexivity. Qed.

Example quiet_middle_classified :
  exists out,
    find_base_candles quiet_middle 1 = Ok out
    /\ map candle_type out = [Momentum; Momentum; Base; Momentum; Momentum].
Proof. eexists; split; vm_compute; reflexivity. Qed.

Example rounding_series_classified :
  exists out,
    find_base_candles rounding_series 6 = Ok out
    /\ map candle_type out
       = repeat Momentum 6 ++ [Base] ++ repeat Momentum 6
    /\ Qeq_bool (neighbour_mean rounding_series 6 6)
                (8646911284551355 # 2251799813685248) = true
    /\ Qeq_bool (fl_mul 6 (momentum_at rounding_series 6))
                (1080863910568919 # 281474976710656) = true.
Proof.
  eexists. split; [vm_compute; reflexivity|].
  split; [vm_compute; reflexivity|].
  split; vm_compute; reflexivity.
Qed.

Example negative_window :
  find_base_candles quiet_middle (-1) = Raise KeyError.
Proof. vm_compute. reflexivity. Qed.

Example example_series_normalized :
  exists out,
    generate_missing_candles example_series = Ok out
    /\ map open_timestamp out = [0; 100; 200; 100000; 100001; 101000; 200002]%Z
    /\ map close_timestamp out = [99; 199; 99999; 100999; 200001; 100000; 300001]%Z.
Proof. eexists; repeat split; vm_compute; reflexivity. Qed.

Example swept_zone_kept :
  find_zones swept_series 0 = [mkZone 99 20 10].
Proof. vm_compute. reflexivity. Qed.

Example three_zones_one_pass :
  append_zones [mkZone 1 20 10; mkZone 2 18 15; mkZone 3 30 25]
  = Ok [mkZone 1 18 10; mkZone 2 30 25].
Proof. vm_compute. reflexivity. Qed.

(* ================================================================== *)
(** * Part III: further properties of the code *)
(* ================================================================== *)

(** ** One pass of the merger *)

Lemma at_pos_nth {R : Type} (rows : list R) (i : nat) (r : R) :
  nth_error rows i = Some r -> at_pos rows i = Ok r.
Proof. intros H. unfold at_pos. rewrite H. reflexivity. Qed.

Lemma az_loop_pass (zones : list Zone) (m k : nat) (prev : Zone)
      (acc : list Zone) (flag : bool) :
  (1 <= k)%nat -> (k + m)%nat = length zones ->
  nth_error zones (k - 1) = Some prev ->
  az_loop zones (seq k m) acc flag = Ok (acc ++ az_pass prev (skipn k zones) flag).
Proof.
  revert k prev acc flag; induction m as [|m IH]; intros k prev acc flag Hk Hlen Hprev.
  - cbn [seq az_loop]. rewrite skipn_all2 by lia. cbn [az_pass].
    rewrite app_nil_r. reflexivity.
  - destruct (nth_error zones k) as [cur|] eqn:Ecur;
      [| apply nth_error_None in Ecur; lia].
    rewrite (@skipn_nth_error _ zones k cur Ecur).
    assert (Hcur : nth_error zones (S k - 1) = Some cur)
      by (replace (S k - 1)%nat with k by lia; exact Ecur).
    cbn [seq az_loop az_pass]. destruct flag.
    + apply IH; [lia | lia | exact Hcur].
    + rewrite (at_pos_nth _ _ Hprev), (at_pos_nth _ _ Ecur). cbn [bind].
      destruct (Qle_bool (z_low cur) (z_high prev)).
      * rewrite (IH (S k) cur) by (try lia; exact Hcur).
        rewrite <- app_assoc. reflexivity.
      * rewrite (IH (S k) cur) by (try lia; exact Hcur).
        rewrite <- app_assoc. reflexivity.
Qed.

Lemma after_loop_seq (m : nat) : after_loop (seq 1 (S m)) = Ok (S m).
Proof.
  unfold after_loop. rewrite seq_S, rev_unit. reflexivity.
Qed.

(** With two zones or more the pass does not raise: it emits what the loop
    emits, and then the last zone under the timestamp of the one before. *)
Lemma append_zones_pass (prev cur : Zone) (rest : list Zone) :
  exists before_last last,
    nth_error (prev :: cur :: rest) (length rest) = Some before_last
    /\ nth_error (prev :: cur :: rest) (S (length rest)) = Some last
    /\ append_zones (prev :: cur :: rest)
       = Ok (az_pass prev (cur :: rest) false
               ++ [mkZone (z_close_timestamp before_last) (z_high last) (z_low last)]).
Proof.
  set (zones := prev :: cur :: rest).
  assert (Hlen : length zones = S (S (length rest))) by reflexivity.
  destruct (nth_error zones (length rest)) as [bl|] eqn:Ebl;
    [| apply nth_error_None in Ebl; lia].
  destruct (nth_error zones (S (length rest))) as [l|] eqn:El;
    [| apply nth_error_None in El; lia].
  exists bl, l. split; [reflexivity|]. split; [reflexivity|].
  unfold append_zones, py_range. rewrite Hlen.
  replace (S (S (length rest)) - 1)%nat with (S (length rest)) by lia.
  rewrite (@az_loop_pass zones (S (length rest)) 1 prev [] false)
    by (try reflexivity; lia).
  cbn [bind app]. rewrite after_loop_seq. cbn [bind].
  replace (S (length rest) - 1)%nat with (length rest) by lia.
  rewrite (at_pos_nth _ _ Ebl), (at_pos_nth _ _ El). reflexivity.
Qed.

Lemma az_pass_length_le (prev : Zone) (rest : list Zone) (flag : bool) :
  (length (az_pass prev rest flag) <= length rest)%nat.
Proof.
  revert prev flag; induction rest as [|cur rest IH]; intros prev flag;
    cbn [az_pass length]; [lia|].
  destruct flag; [specialize (IH cur false); lia|].
  destruct (Qle_bool _ _); cbn [length].
  - specialize (IH cur true); lia.
  - specialize (IH cur false); lia.
Qed.

Lemma az_pass_length_ge (prev : Zone) (rest : list Zone) (flag : bool) :
  (length rest <= 2 * length (az_pass prev rest flag) + (if flag then 1 else 0))%nat.
Proof.
  revert prev flag; induction rest as [|cur rest IH]; intros prev flag;
    cbn [az_pass length]; [lia|].
  destruct flag; [specialize (IH cur false); cbn beta iota in IH; lia|].
  destruct (Qle_bool _ _); cbn [length].
  - specialize (IH cur true); cbn beta iota in IH; lia.
  - specialize (IH cur false); cbn beta iota in IH; lia.
Qed.

Lemma append_zones_bounds (zones : list Zone) :
  (2 <= length zones)%nat ->
  exists out,
    append_zones zones = Ok out
    /\ (2 <= length out <= length zones)%nat
    /\ (length zones + 1 <= 2 * length out)%nat.
Proof.
  intros Hlen. destruct zones as [|prev [|cur rest]]; cbn [length] in Hlen; try lia.
  destruct (append_zones_pass prev cur rest) as (bl & l & _ & _ & E).
  eexists. split; [exact E|].
  rewrite length_app. cbn [length].
  pose proof (az_pass_length_le prev (cur :: rest) false) as Hle.
  pose proof (az_pass_length_ge prev (cur :: rest) false) as Hge.
  cbn [length] in Hle, Hge.
  assert (H1 : (1 <= length (az_pass prev (cur :: rest) false))%nat).
  { cbn [az_pass]. destruct (Qle_bool _ _); cbn [length]; lia. }
  lia.
Qed.

(** X1: a pass over two zones or more does not fail; it returns at least
    two zones, at most as many as it was given, and more than half as
    many. *)
Theorem append_zones_count (zones : list Zone) :
  (2 <= length zones)%nat ->
  exists out,
    append_zones zones = Ok out
    /\ (2 <= length out <= length zones)%nat
    /\ (length zones + 1 <= 2 * length out)%nat.
Proof.
  intros Hlen. destruct zones as [|prev [|cur rest]]; cbn [length] in Hlen; try lia.
  destruct (append_zones_pass prev cur rest) as (bl & l & _ & _ & E).
  eexists. split; [exact E|].
  rewrite length_app. cbn [length].
  pose proof (az_pass_length_le prev (cur :: rest) false) as Hle.
  pose proof (az_pass_length_ge prev (cur :: rest) false) as Hge.
  cbn [length] in Hle, Hge.
  assert (H1 : (1 <= length (az_pass prev (cur :: rest) false))%nat).
  { cbn [az_pass]. destruct (Qle_bool _ _); cbn [length]; lia. }
  lia.
Qed.

Lemma append_zones_count_witness :
  (2 <= length chained_zones)%nat
  /\ exists out,
      append_zones chained_zones = Ok out
      /\ (2 <= length out <= length chained_zones)%nat
      /\ (length chained_zones + 1 <= 2 * length out)%nat.
Proof.
  split; [cbn; lia | apply (@append_zones_count chained_zones); cbn; lia].
Defined.

(** ** The order of the zones *)

Lemma last_cons_default {A : Type} (a d : A) (l : list A) :
  last (a :: l) d = last l a.
Proof.
  revert a d; induction l as [|b l IH]; intros a d; [reflexivity|].
  change (last (a :: b :: l) d) with (last (b :: l) d).
  rewrite (IH b d), (IH b a). reflexivity.
Qed.

Lemma nth_error_last {A : Type} (a : A) (l : list A) :
  nth_error (a :: l) (length l) = Some (last l a).
Proof.
  revert a; induction l as [|b l IH]; intros a; [reflexivity|].
  cbn [length nth_error]. rewrite IH. f_equal.
  symmetry. apply last_cons_default.
Qed.

Lemma az_pass_sorted (prev : Zone) (rest : list Zone) (flag : bool) (f : Zone) :
  StronglySorted (fun a b => z_low a <= z_low b) (prev :: rest) ->
  z_low f = z_low (last rest prev) ->
  StronglySorted (fun a b => z_low a <= z_low b) (az_pass prev rest flag ++ [f])
  /\ Forall (fun z => z_low prev <= z_low z) (az_pass prev rest flag ++ [f]).
Proof.
  revert prev flag; induction rest as [|cur rest IH]; intros prev flag Hs Hf.
  - cbn [az_pass app last] in *. split.
    + repeat constructor.
    + constructor; [rewrite Hf; apply Qle_refl | constructor].
  - inversion Hs as [|? ? Hs' Hall]; subst.
    assert (Hpc : z_low prev <= z_low cur) by (inversion Hall; assumption).
    rewrite last_cons_default in Hf.
    assert (Hup : forall l, Forall (fun z => z_low cur <= z_low z) l ->
                            Forall (fun z => z_low prev <= z_low z) l).
    { intros l. apply Forall_impl. intros z Hz. eapply Qle_trans; eassumption. }
    cbn [az_pass]. destruct flag.
    + destruct (IH cur false Hs' Hf) as [S1 F1]. split; [exact S1 | apply Hup, F1].
    + destruct (Qle_bool (z_low cur) (z_high prev)).
      * destruct (IH cur true Hs' Hf) as [S1 F1]. cbn [app]. split.
        -- constructor; [exact S1 | apply Hup, F1].
        -- constructor; [apply Qle_refl | apply Hup, F1].
      * destruct (IH cur false Hs' Hf) as [S1 F1]. cbn [app]. split.
        -- constructor; [exact S1 | apply Hup, F1].
        -- constructor; [apply Qle_refl | apply Hup, F1].
Qed.

Lemma append_zones_keeps_order (zones out : list Zone) :
  sorted_by_low zones -> append_zones zones = Ok out -> sorted_by_low out.
Proof.
  unfold sorted_by_low. intros Hs E.
  destruct zones as [|prev [|cur rest]]; try discriminate.
  destruct (append_zones_pass prev cur rest) as (bl & l & _ & Hl & E').
  rewrite E' in E. injection E as <-.
  apply StronglySorted_Sorted.
  refine (proj1 (@az_pass_sorted prev (cur :: rest) false _ _ _)).
  - apply Sorted_StronglySorted; [|exact Hs].
    intros x y z. apply Qle_trans.
  - cbn [z_low].
    change (S (length rest)) with (length (cur :: rest)) in Hl.
    rewrite nth_error_last in Hl. injection Hl as <-. reflexivity.
Qed.

(** X2: a pass keeps the zones sorted by low: the lows it emits are lows of
    its input, in the input's order. *)
Theorem append_zones_sorted (zones out : list Zone) :
  sorted_by_low zones -> append_zones zones = Ok out -> sorted_by_low out.
Proof.
  unfold sorted_by_low. intros Hs E.
  destruct zones as [|prev [|cur rest]]; try discriminate.
  destruct (append_zones_pass prev cur rest) as (bl & l & _ & Hl & E').
  rewrite E' in E. injection E as <-.
  apply StronglySorted_Sorted.
  refine (proj1 (@az_pass_sorted prev (cur :: rest) false _ _ _)).
  - apply Sorted_StronglySorted; [|exact Hs].
    intros x y z. apply Qle_trans.
  - cbn [z_low].
    change (S (length rest)) with (length (cur :: rest)) in Hl.
    rewrite nth_error_last in Hl. injection Hl as <-. reflexivity.
Qed.

Lemma chained_zones_sorted : sorted_by_low chained_zones.
Proof.
  unfold sorted_by_low, chained_zones.
  repeat constructor; cbn; intros H; discriminate.
Qed.

Lemma append_zones_sorted_witness :
  sorted_by_low chained_zones
  /\ append_zones chained_zones = Ok [mkZone 1 30 10; mkZone 3 40 25; mkZone 3 60 50]
  /\ sorted_by_low [mkZone 1 30 10; mkZone 3 40 25; mkZone 3 60 50].
Proof.
  split; [exact chained_zones_sorted|]. split; [reflexivity|].
  apply (@append_zones_sorted chained_zones);
    [exact chained_zones_sorted | reflexivity].
Defined.

(** ** The loop at the head of [generate_chart] *)

Lemma Qle_bool_false_Qltb (x y : Q) : Qle_bool x y = false <-> Qltb y x = true.
Proof.
  rewrite Qltb_lt. split.
  - intros H. apply Qnot_le_lt. intros Hle.
    apply Qle_bool_iff in Hle. congruence.
  - intros H. destruct (Qle_bool x y) eqn:E; [|reflexivity].
    apply Qle_bool_iff in E. exfalso. apply (Qlt_irrefl y).
    eapply Qlt_le_trans; eassumption.
Qed.

Lemma removelast_cons2 {A : Type} (a b : A) (l : list A) :
  removelast (a :: b :: l) = a :: removelast (b :: l).
Proof. reflexivity. Qed.

Lemma non_overlapping_cons (a b : Zone) (l : list Zone) :
  non_overlapping (a :: b :: l)
  = Qltb (z_high a) (z_low b) && non_overlapping (b :: l).
Proof. reflexivity. Qed.

(** The loop of a pass emits one zone per pair exactly when no pair but
    the last one overlaps or touches. *)
Lemma az_pass_full (prev : Zone) (rest : list Zone) :
  length (az_pass prev rest false) = length rest
  <-> non_overlapping (removelast (prev :: rest)) = true.
Proof.
  revert prev; induction rest as [|cur rest IH]; intros prev.
  - split; reflexivity.
  - destruct rest as [|c2 r].
    + cbn [az_pass]. destruct (Qle_bool _ _); split; reflexivity.
    + rewrite removelast_cons2.
      assert (Er : exists t, removelast (cur :: c2 :: r) = cur :: t)
        by (eexists; apply removelast_cons2).
      destruct Er as [t Et]. rewrite Et, non_overlapping_cons, <- Et.
      specialize (IH cur).
      change (az_pass prev (cur :: c2 :: r) false)
        with (if Qle_bool (z_low cur) (z_high prev)
              then mkZone (z_close_timestamp prev) (z_high cur) (z_low prev)
                     :: az_pass c2 r false
              else mkZone (z_close_timestamp prev) (z_high prev) (z_low prev)
                     :: az_pass cur (c2 :: r) false).
      destruct (Qle_bool (z_low cur) (z_high prev)) eqn:E.
      * assert (Hq : Qltb (z_high prev) (z_low cur) = false).
        { destruct (Qltb (z_high prev) (z_low cur)) eqn:E'; [|reflexivity].
          apply Qle_bool_false_Qltb in E'. congruence. }
        rewrite Hq. cbn [andb length].
        pose proof (az_pass_length_le c2 r false). split; [lia | discriminate].
      * apply Qle_bool_false_Qltb in E. rewrite E. cbn [andb length].
        rewrite <- IH. cbn [length]. split; lia.
Qed.

Lemma append_zones_same_count (zones : list Zone) :
  (2 <= length zones)%nat ->
  (exists out, append_zones zones = Ok out /\ length out = length zones)
  <-> non_overlapping (removelast zones) = true.
Proof.
  intros Hlen. destruct zones as [|prev [|cur rest]]; cbn [length] in Hlen; try lia.
  destruct (append_zones_pass prev cur rest) as (bl & l & _ & _ & E).
  rewrite <- az_pass_full. split.
  - intros (out & E' & Hl). rewrite E in E'. apply Ok_inj in E'. subst out.
    rewrite length_app in Hl. cbn [length] in Hl |- *. lia.
  - intros Hl. eexists. split; [exact E|].
    rewrite length_app, Hl. cbn [length]. lia.
Qed.

Lemma merge_loop_fixed (fuel : nat) (zones out : list Zone) :
  merge_loop fuel zones = Some (Ok out) ->
  (length out <= length zones)%nat
  /\ exists again, append_zones out = Ok again /\ (length out <= length again)%nat.
Proof.
  revert zones; induction fuel as [|fuel IH]; intros zones H; [discriminate|].
  cbn [merge_loop] in H.
  destruct (append_zones zones) as [appended|e] eqn:E; [|discriminate].
  destruct (Nat.ltb_spec (length appended) (length zones)) as [Hlt|Hge].
  - destruct (IH _ H) as [Hle Hfix]. split; [lia | exact Hfix].
  - injection H as <-. split; [lia|]. exists appended. split; [exact E | exact Hge].
Qed.

Lemma merge_loop_ok (fuel : nat) (zones : list Zone) :
  (length zones < fuel)%nat -> (2 <= length zones)%nat ->
  exists out, merge_loop fuel zones = Some (Ok out) /\ (2 <= length out)%nat.
Proof.
  revert zones; induction fuel as [|fuel IH]; intros zones Hf Hlen; [lia|].
  cbn [merge_loop].
  destruct (@append_zones_bounds zones Hlen) as (appended & E & Hb & _).
  rewrite E.
  destruct (Nat.ltb_spec (length appended) (length zones)) as [Hlt|Hge].
  - apply IH; lia.
  - exists zones. split; [reflexivity | exact Hlen].
Qed.

Lemma merge_loop_keeps (P : list Zone -> Prop) :
  (forall zones out, P zones -> append_zones zones = Ok out -> P out) ->
  forall fuel zones out,
    P zones -> merge_loop fuel zones = Some (Ok out) -> P out.
Proof.
  intros Hstep fuel; induction fuel as [|fuel IH]; intros zones out HP H;
    [discriminate|].
  cbn [merge_loop] in H.
  destruct (append_zones zones) as [appended|e] eqn:E; [|discriminate].
  destruct (length appended <? length zones)%nat.
  - apply (IH appended); [apply (Hstep zones); assumption | exact H].
  - injection H as <-. exact HP.
Qed.

(** X3: given two zones or more, the loop ends without an error, with at
    least two zones and at most as many as it was given; in what it
    returns, every adjacent pair except possibly the last one satisfies
    [zone[i].high < zone[i+1].low]; and the zones are sorted by low if
    they were. *)
Theorem merge_loop_result (zones : list Zone) :
  (2 <= length zones)%nat ->
  exists out,
    merged_zones zones = Some (Ok out)
    /\ (2 <= length out <= length zones)%nat
    /\ non_overlapping (removelast out) = true
    /\ (sorted_by_low zones -> sorted_by_low out).
Proof.
  intros Hlen. unfold merged_zones.
  destruct (@merge_loop_ok (S (length zones)) zones) as (out & E & Hout);
    [lia | exact Hlen |].
  exists out. split; [exact E|].
  destruct (@merge_loop_fixed _ _ _ E) as [Hle (again & Ea & Hfix)].
  split; [lia|]. split.
  - apply append_zones_same_count; [exact Hout|].
    exists again. split; [exact Ea|].
    destruct (@append_zones_bounds out Hout) as (o & Eo & Hb & _).
    rewrite Ea in Eo. injection Eo as <-. lia.
  - intros Hs.
    apply (@merge_loop_keeps sorted_by_low append_zones_keeps_order _ _ _ Hs E).
Qed.

Lemma merge_loop_result_witness :
  (2 <= length chained_zones)%nat
  /\ exists out,
      merged_zones chained_zones = Some (Ok out)
      /\ (2 <= length out <= length chained_zones)%nat
      /\ non_overlapping (removelast out) = true
      /\ (sorted_by_low chained_zones -> sorted_by_low out).
Proof.
  split; [cbn; lia | apply (@merge_loop_result chained_zones); cbn; lia].
Defined.

(** X4: the loop fails exactly when it is given fewer than two zones, and
    then with UnboundLocalError. *)
Theorem merge_loop_failure (zones : list Zone) :
  (merged_zones zones = Some (Raise UnboundLocalError) <-> (length zones < 2)%nat)
  /\ (forall e, merged_zones zones = Some (Raise e) -> e = UnboundLocalError).
Proof.
  destruct (Nat.lt_ge_cases (length zones) 2) as [Hlt|Hge].
  - assert (E : merged_zones zones = Some (Raise UnboundLocalError)).
    { destruct zones as [|z [|z' l]]; cbn [length] in Hlt; try lia; reflexivity. }
    split; [split; auto|]. intros e He. rewrite E in He. congruence.
  - destruct (@merge_loop_ok (S (length zones)) zones) as (out & E & _);
      [lia | exact Hge |].
    unfold merged_zones. rewrite E.
    split; [split; [discriminate | lia] | discriminate].
Qed.

(** X5: given two zones or more, the loop returns its input as it is
    exactly when no adjacent pair but possibly the last one overlaps or
    touches. *)
Theorem merge_loop_unchanged (zones : list Zone) :
  (2 <= length zones)%nat ->
  (merged_zones zones = Some (Ok zones)
   <-> non_overlapping (removelast zones) = true).
Proof.
  intros Hlen. rewrite <- (@append_zones_same_count zones Hlen).
  destruct (@append_zones_bounds zones Hlen) as (appended & E & Hb & _).
  unfold merged_zones. cbn [merge_loop]. rewrite E.
  destruct (Nat.ltb_spec (length appended) (length zones)) as [Hlt|Hge].
  - split.
    + intros H. destruct (@merge_loop_fixed _ _ _ H) as [Hle _]. lia.
    + intros (out & Eo & Hl). apply Ok_inj in Eo. subst out. lia.
  - split; [|reflexivity].
    intros _. exists appended. split; [reflexivity | lia].
Qed.

Lemma merge_loop_unchanged_witness :
  (2 <= length separate_zones)%nat
  /\ (merged_zones separate_zones = Some (Ok separate_zones)
      <-> non_overlapping (removelast separate_zones) = true).
Proof.
  split; [cbn; lia | apply (@merge_loop_unchanged separate_zones); cbn; lia].
Defined.

(** ** Thresholds of the detector *)

Lemma filter_none {A : Type} (p : A -> bool) (l : list A) :
  (forall x, In x l -> p x = false) -> filter p l = [].
Proof.
  induction l as [|x l IH]; intros H; cbn [filter]; [reflexivity|].
  rewrite (H x (or_introl eq_refl)). apply IH.
  intros y Hy; apply H; right; exact Hy.
Qed.

Lemma touch_count_bounds (data : list Row) (b : Candle) :
  (0 <= touch_count data b <= Z.of_nat (length data))%Z.
Proof.
  unfold touch_count.
  pose proof (filter_length_le (fun r => later_touch b (candle r)) data). lia.
Qed.

(** X6: with a negative [max_num_touches] the detector finds no zone. *)
Theorem find_zones_negative_threshold (data : list Row) (max_num_touches : Z) :
  (max_num_touches < 0)%Z -> find_zones data max_num_touches = [].
Proof.
  intros Hneg. unfold find_zones. rewrite fz_loop_filter, filter_none; [reflexivity|].
  intros r _. apply Z.leb_gt.
  pose proof (touch_count_bounds data (candle r)). lia.
Qed.

Lemma find_zones_negative_threshold_witness :
  (-1 < 0)%Z /\ find_zones swept_series (-1) = [].
Proof.
  split; [lia | apply (@find_zones_negative_threshold swept_series); lia].
Defined.

(** X7: with [max_num_touches] at least the number of candles every base
    candle gives a zone: the detector returns the zones of all base
    candles, sorted by low. *)
Theorem find_zones_large_threshold (data : list Row) (max_num_touches : Z) :
  (Z.of_nat (length data) <= max_num_touches)%Z ->
  find_zones data max_num_touches
  = sort_values by_low
      (map (fun r => zone_of (candle r))
           (filter (fun r => is_base (candle_type r)) data)).
Proof.
  intros Hbig. unfold find_zones. rewrite fz_loop_filter, filter_all; [reflexivity|].
  intros r _. apply Z.leb_le.
  pose proof (touch_count_bounds data (candle r)). lia.
Qed.

Lemma find_zones_large_threshold_witness :
  (Z.of_nat (length swept_series) <= 3)%Z
  /\ find_zones swept_series 3
     = sort_values by_low
         (map (fun r => zone_of (candle r))
              (filter (fun r => is_base (candle_type r)) swept_series)).
Proof.
  split; [cbn; lia | apply (@find_zones_large_threshold swept_series); cbn; lia].
Defined.

(** X8: the scan of the detector stops counting one past the threshold:
    started at zero with a threshold that is not negative, it ends with the
    number of touching candles or with [max_num_touches + 1], whichever is
    smaller. *)
Theorem scan_touches_early_exit (b : Candle) (later : list Candle) (max_num_touches : Z) :
  (0 <= max_num_touches)%Z ->
  scan_touches b later 0 max_num_touches
  = Z.min (Z.of_nat (length (filter (touches b) later))) (max_num_touches + 1).
Proof.
  intros Hmax.
  assert (G : forall n, (n <= max_num_touches)%Z ->
              scan_touches b later n max_num_touches
              = Z.min (n + Z.of_nat (length (filter (touches b) later)))
                      (max_num_touches + 1)).
  { induction later as [|c later IH]; intros n Hn; cbn [scan_touches filter].
    - cbn [length]. lia.
    - destruct (touches b c).
      + cbn [length]. rewrite Nat2Z.inj_succ.
        destruct (Z.gtb_spec (n + 1) max_num_touches) as [Hgt|Hle].
        * lia.
        * rewrite IH by lia. lia.
      + apply IH; exact Hn. }
  rewrite G by exact Hmax. reflexivity.
Qed.

Lemma scan_touches_early_exit_witness :
  (0 <= 1)%Z
  /\ scan_touches (candle swept_base) (map candle swept_series) 0 1
     = Z.min (Z.of_nat (length (filter (touches (candle swept_base))
                                       (map candle swept_series))))
             (1 + 1).
Proof.
  split; [lia|].
  apply (@scan_touches_early_exit (candle swept_base) (map candle swept_series) 1).
  lia.
Defined.

(** ** The detector followed by the loop of [generate_chart] *)

(** X9: the zones of the detector, taken through the loop of
    [generate_chart], come out sorted by low; and the loop fails on them
    exactly when the detector found fewer than two zones. *)
Theorem detected_zones_merged (data : list Row) (max_num_touches : Z) :
  (forall out, merged_zones (find_zones data max_num_touches) = Some (Ok out) ->
               sorted_by_low out)
  /\ (merged_zones (find_zones data max_num_touches) = Some (Raise UnboundLocalError)
      <-> (length (find_zones data max_num_touches) < 2)%nat).
Proof.
  split.
  - intros out E.
    apply (@merge_loop_keeps sorted_by_low append_zones_keeps_order _ _ _
             (find_zones_sorted data max_num_touches) E).
  - set (zones := find_zones data max_num_touches).
    destruct (Nat.lt_ge_cases (length zones) 2) as [Hlt|Hge].
    + split; [auto|]. intros _.
      destruct zones as [|z [|z' l]]; cbn [length] in Hlt; try lia; reflexivity.
    + destruct (@merge_loop_ok (S (length zones)) zones) as (out & E & _);
        [lia | exact Hge |].
      unfold merged_zones. rewrite E. split; [discriminate | lia].
Qed.

(** ** More on the classifier *)

Lemma find_base_candles_negative_window (data : list Candle) (nocffz : Z) :
  (nocffz < 0)%Z -> find_base_candles data nocffz = Raise KeyError.
Proof.
  intros Hneg. unfold find_base_candles.
  rewrite py_range_Z_cons by lia.
  cbn [fbc_loop]. unfold neighbours.
  rewrite py_range_Z_empty by lia.
  cbn [filter mapM bind]. unfold np_mean.
  destruct (Z.eqb_spec (2 * nocffz) 0) as [E|_]; [lia|].
  cbn [bind]. unfold at_index.
  destruct (Z.ltb_spec nocffz 0); [reflexivity | lia].
Qed.

Lemma find_base_candles_positive_window (data : list Candle) (nocffz : Z) :
  (0 < nocffz)%Z -> exists out, find_base_candles data nocffz = Ok out.
Proof.
  intros Hpos.
  destruct (@find_base_candles_rows data (Z.to_nat nocffz)) as (out & E & _); [lia|].
  rewrite Z2Nat.id in E by lia. exists out. exact E.
Qed.

(** X10: the classifier fails exactly when the window is zero and there is
    a candle, with ZeroDivisionError (the mean over no neighbour), and
    when the window is negative, with KeyError (the first index of the
    loop is the negative window itself, which is no label of the frame);
    it raises nothing else. *)
Theorem find_base_candles_failure (data : list Candle) (nocffz : Z) :
  (find_base_candles data nocffz = Raise ZeroDivisionError
   <-> nocffz = 0%Z /\ data <> [])
  /\ (find_base_candles data nocffz = Raise KeyError <-> (nocffz < 0)%Z)
  /\ (forall e, find_base_candles data nocffz = Raise e ->
                e = ZeroDivisionError \/ e = KeyError).
Proof.
  destruct (Z.lt_trichotomy nocffz 0) as [Hneg|[->|Hpos]].
  - rewrite (@find_base_candles_negative_window data nocffz Hneg).
    split; [split; [discriminate | intros [H _]; lia]|].
    split; [split; auto|].
    intros e H. right. congruence.
  - destruct data as [|c data].
    + split; [split; [discriminate | intros [_ H]; contradiction]|].
      split; [split; [discriminate | lia] | discriminate].
    + rewrite find_base_candles_zero_window.
      split; [split; [intros _; split; [reflexivity | discriminate] | reflexivity]|].
      split; [split; [discriminate | lia]|].
      intros e H. left. congruence.
  - destruct (@find_base_candles_positive_window data nocffz Hpos) as (out & E).
    rewrite E.
    split; [split; [discriminate | intros [H _]; lia]|].
    split; [split; [discriminate | lia] | discriminate].
Qed.

Lemma find_base_candles_none_eligible (data : list Candle) (nocffz : Z) :
  (Z.of_nat (length data) <= 2 * nocffz)%Z ->
  fbc_loop nocffz (map (fun c => mkRow c Momentum (Qabs (fl_sub (close c) (open c)))) data)
           (py_range_Z nocffz (Z.of_nat (length data) - nocffz))
  = Ok (map (fun c => mkRow c Momentum (Qabs (fl_sub (close c) (open c)))) data).
Proof.
  intros Hlen. rewrite py_range_Z_empty by lia. reflexivity.
Qed.

(** X11: with fewer than [2 * nocffz + 1] candles no candle is eligible:
    the classifier returns every candle with type "momentum". *)
Theorem find_base_candles_short (data : list Candle) (nocffz : Z) :
  (Z.of_nat (length data) <= 2 * nocffz)%Z ->
  find_base_candles data nocffz
  = Ok (map (fun c => mkRow c Momentum (Qabs (fl_sub (close c) (open c)))) data).
Proof.
  intros Hlen. unfold find_base_candles.
  rewrite py_range_Z_empty by (rewrite length_map; lia).
  reflexivity.
Qed.

Lemma find_base_candles_short_witness :
  (Z.of_nat (length quiet_middle) <= 2 * 3)%Z
  /\ find_base_candles quiet_middle 3
     = Ok (map (fun c => mkRow c Momentum (Qabs (fl_sub (close c) (open c))))
               quiet_middle).
Proof.
  split; [cbn; lia | apply (@find_base_candles_short quiet_middle 3); cbn; lia].
Defined.

(** *** Signs in float arithmetic *)

Lemma fl64_zero (q : Q) : Qnum q = 0%Z -> fl64 q = 0.
Proof. intros H. unfold fl64. rewrite H. reflexivity. Qed.

Lemma fl64_nonneg (q : Q) : 0 <= q -> 0 <= fl64 q.
Proof.
  intros Hq.
  assert (Hn : (0 <= Qnum q)%Z) by (unfold Qle in Hq; cbn in Hq; lia).
  unfold fl64.
  destruct (Z.eqb_spec (Qnum q) 0) as [_|Hne]; [apply Qle_refl|].
  cbv zeta.
  set (a := Z.abs (Qnum q)).
  set (d := Z.pos (Qden q)).
  set (s := Z.max _ (-1074)).
  set (num := if (0 <=? s)%Z then a else (a * 2 ^ (- s))%Z).
  set (den := if (0 <=? s)%Z then (d * 2 ^ s)%Z else d).
  assert (Hnum : (0 <= num)%Z).
  { unfold num. destruct (0 <=? s)%Z; [unfold a; lia|].
    apply Z.mul_nonneg_nonneg; [unfold a; lia|]. apply Z.pow_nonneg. lia. }
  assert (Hden : (0 < den)%Z).
  { unfold den. destruct (Z.leb_spec 0 s); [|unfold d; lia].
    apply Z.mul_pos_pos; [unfold d; lia|]. apply Z.pow_pos_nonneg; lia. }
  assert (Hq0 : (0 <= num / den)%Z) by (apply Z.div_pos; assumption).
  set (m := match (2 * (num mod den) ?= den)%Z with
            | Eq => if Z.even (num / den) then (num / den)%Z else (num / den + 1)%Z
            | Lt => (num / den)%Z
            | Gt => (num / den + 1)%Z
            end).
  assert (Hm : (0 <= m)%Z).
  { unfold m. destruct (2 * (num mod den) ?= den)%Z;
      [destruct (Z.even (num / den))| |]; lia. }
  assert (Hv : (0 <= Z.sgn (Qnum q) * m)%Z).
  { rewrite Z.sgn_pos by lia. lia. }
  destruct (Z.leb_spec 0 s).
  - change 0 with (inject_Z 0). rewrite <- Zle_Qle.
    apply Z.mul_nonneg_nonneg; [exact Hv|]. apply Z.pow_nonneg. lia.
  - unfold Qle. cbn. lia.
Qed.

Lemma np_sum_zero (l : list Q) :
  Forall (fun x => Qnum x = 0%Z) l -> np_sum l = 0.
Proof.
  unfold np_sum. induction 1 as [|x l Hx _ IH]; [reflexivity|].
  cbn [fold_left]. unfold fl_add at 2.
  rewrite fl64_zero; [exact IH|].
  cbn. rewrite Hx. reflexivity.
Qed.

Lemma Forall_zero_or_Exists (f : nat -> Q) (l : list nat) :
  Forall (fun x => Qnum x = 0%Z) (map f l)
  \/ exists j, In j l /\ Qnum (f j) <> 0%Z.
Proof.
  induction l as [|j l [IH|(k & Hk & Hne)]].
  - left; constructor.
  - destruct (Z.eq_dec (Qnum (f j)) 0) as [E|E].
    + left; constructor; assumption.
    + right; exists j; split; [left; reflexivity | exact E].
  - right; exists k; split; [right; exact Hk | exact Hne].
Qed.

(** X12: a candle is marked "base" only if one of its [2 * nocffz]
    neighbours has a momentum above zero: where every neighbour closes at
    its open, the float mean is 0 and is not greater than 6 times any
    momentum. *)
Theorem base_candle_has_moving_neighbour
        (data : list Candle) (nocffz : Z) (out : list Row) (i : nat) (r : Row) :
  find_base_candles data nocffz = Ok out ->
  nth_error out i = Some r ->
  candle_type r = Base ->
  exists j c,
    j <> i /\ (Z.of_nat i - nocffz <= Z.of_nat j <= Z.of_nat i + nocffz)%Z
    /\ nth_error data j = Some c
    /\ 0 < Qabs (fl_sub (close c) (open c)).
Proof.
  intros E Hr Hbase.
  destruct (Z.lt_trichotomy nocffz 0) as [Hneg|[->|Hpos]].
  { rewrite (@find_base_candles_negative_window data nocffz Hneg) in E.
    discriminate. }
  { destruct data as [|c0 data];
      [| rewrite find_base_candles_zero_window in E; discriminate].
    cbn in E. apply Ok_inj in E. subst out. destruct i; discriminate. }
  destruct (@find_base_candles_rows data (Z.to_nat nocffz))
    as (out' & E' & Hlen & Hrows); [lia|].
  rewrite Z2Nat.id in E' by lia.
  rewrite E in E'. apply Ok_inj in E'. subst out'.
  set (w := Z.to_nat nocffz) in *.
  destruct (nth_error data i) as [c|] eqn:Ec.
  2:{ apply nth_error_None in Ec.
      assert (nth_error out i = None) by (apply nth_error_None; lia). congruence. }
  destruct (Hrows i c Ec) as (r' & Hr' & _ & Hm & Ht).
  rewrite Hr in Hr'. apply (f_equal (fun o => match o with
                                              | Some x => x
                                              | None => r
                                              end)) in Hr'.
  subst r'. rewrite Hbase in Ht.
  destruct (Nat.leb_spec w i) as [Hle|]; [|discriminate].
  destruct (Nat.ltb_spec i (length data - w)) as [Hhi|]; [|discriminate].
  cbn [andb] in Ht.
  destruct (Qltb (fl_mul 6 (momentum_at data i)) (neighbour_mean data w i)) eqn:Eq;
    [|discriminate].
  apply Qltb_lt in Eq.
  destruct (Forall_zero_or_Exists (momentum_at data) (neighbour_indices w i))
    as [Hall|(j & Hj & Hne)].
  - exfalso. unfold neighbour_mean in Eq.
    rewrite (np_sum_zero Hall) in Eq.
    unfold fl_div in Eq at 1. rewrite fl64_zero in Eq by reflexivity.
    apply (Qlt_irrefl 0). eapply Qle_lt_trans; [|exact Eq].
    unfold fl_mul. apply fl64_nonneg.
    apply Qmult_le_0_compat; [discriminate|].
    unfold momentum_at. rewrite Ec. apply Qabs_nonneg.
  - unfold neighbour_indices in Hj. apply in_app_or in Hj.
    assert (Hrange : (j <> i /\ i - w <= j <= i + w)%nat).
    { destruct Hj as [Hj|Hj]; apply in_seq in Hj; lia. }
    unfold momentum_at in Hne.
    destruct (nth_error data j) as [cj|] eqn:Ecj; [|contradiction Hne; reflexivity].
    exists j, cj. split; [tauto|]. split; [unfold w in Hrange; lia|].
    split; [exact Ecj|].
    pose proof (Qabs_nonneg (fl_sub (close cj) (open cj))) as Hge.
    unfold Qle in Hge. unfold Qlt. cbn in Hge |- *. lia.
Qed.

Lemma base_candle_has_moving_neighbour_witness :
  exists out r,
    find_base_candles quiet_middle 1 = Ok out
    /\ nth_error out 2 = Some r
    /\ candle_type r = Base
    /\ exists j c,
        j <> 2%nat /\ (Z.of_nat 2 - 1 <= Z.of_nat j <= Z.of_nat 2 + 1)%Z
        /\ nth_error quiet_middle j = Some c
        /\ 0 < Qabs (fl_sub (close c) (open c)).
Proof.
  pose (out := match find_base_candles quiet_middle 1 with
               | Ok rows => rows
               | Raise _ => []
               end).
  pose (r := nth 2 out (mkRow (body_candle 0 0 0) Momentum 0)).
  assert (E : find_base_candles quiet_middle 1 = Ok out) by (vm_compute; reflexivity).
  assert (Hr : nth_error out 2 = Some r) by (vm_compute; reflexivity).
  assert (Hb : candle_type r = Base) by (vm_compute; reflexivity).
  exists out, r.
  split; [exact E|]. split; [exact Hr|]. split; [exact Hb|].
  exact (@base_candle_has_moving_neighbour quiet_middle 1 out 2 r E Hr Hb).
Defined.

(** ** More on the normalizer *)

Lemma fillers_length (data : list Candle) :
  (length (fillers data) <= length data - 1)%nat.
Proof.
  induction data as [|a data IH]; [cbn; lia|].
  destruct data as [|b l]; [cbn; lia|].
  rewrite fillers_cons. cbn [length] in *.
  destruct (negb _); cbn [length]; lia.
Qed.

Lemma sort_values_length {A : Type} (leb : A -> A -> bool) (l : list A) :
  length (sort_values leb l) = length l.
Proof. apply Permutation_length, sort_values_perm. Qed.

(** X13: the normalizer never raises and adds at most one row per
    consecutive pair of its input, however wide a gap is: its output has
    at least as many rows as its input; for an input of at least one row,
    fewer than twice as many; for the empty input, no row. *)
Theorem generate_missing_candles_count (data : list Candle) :
  exists out,
    generate_missing_candles data = Ok out
    /\ (length data <= length out)%nat
    /\ (data <> [] -> (length out + 1 <= 2 * length data)%nat)
    /\ (data = [] -> out = []).
Proof.
  eexists. split; [apply generate_missing_candles_ok|].
  rewrite sort_values_length, length_app.
  pose proof (fillers_length data) as Hf.
  split; [lia|]. split.
  - intros Hne. destruct data as [|c data]; [contradiction|].
    cbn [length] in *. lia.
  - intros ->. reflexivity.
Qed.

Lemma contiguous_no_fillers (data : list Candle) :
  contiguous data = true -> fillers data = [].
Proof.
  induction data as [|a data IH]; [reflexivity|].
  destruct data as [|b l]; [reflexivity|].
  rewrite contiguous_cons, fillers_cons. intros H.
  apply andb_prop in H. destruct H as [H1 H2].
  rewrite H1. cbn [negb]. apply IH; exact H2.
Qed.

Lemma time_ordered_cons (a b : Candle) (l : list Candle) :
  time_ordered (a :: b :: l)
  = (open_timestamp a <? open_timestamp b)%Z && time_ordered (b :: l).
Proof. reflexivity. Qed.

Lemma time_ordered_ascending (data : list Candle) :
  time_ordered data = true <->
  StronglySorted (fun a b => (open_timestamp a < open_timestamp b)%Z) data.
Proof.
  split.
  - intros H. apply Sorted_StronglySorted; [intros x y z; lia|].
    induction data as [|a data IH]; [constructor|].
    destruct data as [|b l]; [repeat constructor|].
    rewrite time_ordered_cons in H. apply andb_prop in H. destruct H as [H1 H2].
    constructor; [apply IH; exact H2 | constructor; apply Z.ltb_lt; exact H1].
  - intros H. apply StronglySorted_Sorted in H.
    induction data as [|a data IH]; [reflexivity|].
    destruct data as [|b l]; [reflexivity|].
    inversion H as [|? ? Hs Hhd]; subst. inversion Hhd; subst.
    rewrite time_ordered_cons. apply andb_true_intro. split.
    + apply Z.ltb_lt. assumption.
    + apply IH. exact Hs.
Qed.

(** X14: a series that is time-ordered and already contiguous is returned
    as it is. *)
Theorem generate_missing_candles_contiguous_input (data : list Candle) :
  time_ordered data = true -> contiguous data = true ->
  generate_missing_candles data = Ok data.
Proof.
  intros Ht Hc. rewrite generate_missing_candles_ok, (contiguous_no_fillers _ Hc).
  rewrite app_nil_r. f_equal.
  apply (sort_values_unique open_timestamp).
  - apply time_ordered_ascending; exact Ht.
  - reflexivity.
Qed.

Lemma generate_missing_candles_contiguous_input_witness :
  time_ordered (firstn 2 gapped_series) = true
  /\ contiguous (firstn 2 gapped_series) = true
  /\ generate_missing_candles (firstn 2 gapped_series) = Ok (firstn 2 gapped_series).
Proof.
  split; [reflexivity|]. split; [reflexivity|].
  apply (@generate_missing_candles_contiguous_input (firstn 2 gapped_series));
    reflexivity.
Defined.

Lemma new_row_price_ordered (prev cur : Candle) : price_ordered (new_row prev cur).
Proof.
  unfold price_ordered, new_row; cbn.
  repeat split.
  - apply Q.le_min_l.
  - apply Q.le_min_r.
  - apply Q.le_max_l.
  - apply Q.le_max_r.
Qed.

(** X16: the normalizer keeps prices in order: if in every input candle
    the low is at most the open and the close, and these at most the high,
    the same holds of every output candle, fillers included. *)
Theorem generate_missing_candles_price_ordered (data out : list Candle) :
  Forall price_ordered data ->
  generate_missing_candles data = Ok out ->
  Forall price_ordered out.
Proof.
  intros Hall E. rewrite generate_missing_candles_ok in E.
  apply Ok_inj in E. subst out.
  apply Forall_forall. intros c Hc.
  apply (Permutation_in _ (sort_values_perm by_open_timestamp _)) in Hc.
  apply in_app_or in Hc. destruct Hc as [Hc|Hc].
  - rewrite Forall_forall in Hall. apply Hall; exact Hc.
  - apply fillers_spec in Hc. destruct Hc as (i & p & q & _ & _ & _ & ->).
    apply new_row_price_ordered.
Qed.

Lemma gapped_series_price_ordered : Forall price_ordered gapped_series.
Proof.
  unfold gapped_series, price_ordered.
  repeat constructor; cbn; intros H; discriminate.
Qed.

Lemma generate_missing_candles_price_ordered_witness :
  exists out,
    Forall price_ordered gapped_series
    /\ generate_missing_candles gapped_series = Ok out
    /\ length out = 4%nat
    /\ Forall price_ordered out.
Proof.
  eexists.
  assert (E : generate_missing_candles gapped_series = Ok _)
    by (vm_compute; reflexivity).
  split; [exact gapped_series_price_ordered|]. split; [exact E|].
  split; [reflexivity|].
  apply (@generate_missing_candles_price_ordered gapped_series _
           gapped_series_price_ordered E).
Defined.

(** ** The whole run *)

(** X17: when the exchange returned no more candles than the window is
    wide, no candle is eligible for the type "base", the detector finds no
    zone, and the run ends in the UnboundLocalError of [append_zones]; so
    it does for the source's window of 6 with up to 6 candles. *)
Theorem zone_pipeline_short_input (candles : list Candle) (nocffz : Z)
        (max_num_touches : Z) :
  (Z.of_nat (length candles) <= nocffz)%Z ->
  zone_pipeline candles nocffz max_num_touches = Some (Raise UnboundLocalError).
Proof.
  intros Hlen. unfold zone_pipeline.
  rewrite generate_missing_candles_ok. cbn [bind].
  unfold find_base_candles. rewrite length_map.
  rewrite find_base_candles_none_eligible.
  2:{ rewrite sort_values_length, length_app.
      pose proof (fillers_length candles). lia. }
  unfold find_zones. rewrite filter_none; [reflexivity|].
  intros r Hr. apply in_map_iff in Hr. destruct Hr as (c & <- & _). reflexivity.
Qed.

Lemma zone_pipeline_short_input_witness :
  (Z.of_nat (length gapped_series) <= 6)%Z
  /\ zone_pipeline gapped_series 6 4 = Some (Raise UnboundLocalError).
Proof.
  split; [cbn; lia | apply (@zone_pipeline_short_input gapped_series 6 4); cbn; lia].
Defined.

(** ** More on timeframe tokens *)

(** X18: [convert_timeframe] fails on the empty string only, with
    IndexError; every other string gets a duration. *)
Theorem convert_timeframe_failure (timeframe_string : string) :
  (convert_timeframe timeframe_string = Raise IndexError
   <-> timeframe_string = EmptyString)
  /\ (timeframe_string <> EmptyString ->
      exists timeframe_ms, convert_timeframe timeframe_string = Ok timeframe_ms).
Proof.
  destruct timeframe_string as [|c s].
  - split; [split; reflexivity | intros H; contradiction].
  - assert (E : exists ms, convert_timeframe (String c s) = Ok ms).
    { unfold convert_timeframe, convert_timeframe_str.
      pose proof (str_of_string_nonempty c s) as Hne.
      destruct (rev (str_of_string (String c s))) as [|u p] eqn:Er.
      - apply (f_equal (@length N)) in Er.
        rewrite length_rev in Er.
        destruct (str_of_string (String c s)); [contradiction | discriminate].
      - destruct (py_int (rev p)); [|eexists; reflexivity].
        destruct (u =? chr "m")%N; [eexists; reflexivity|].
        destruct (u =? chr "h")%N; [eexists; reflexivity|].
        destruct (u =? chr "d")%N; [eexists; reflexivity|].
        destruct (u =? chr "w")%N; eexists; reflexivity. }
    split; [|intros _; exact E].
    destruct E as [ms E]. rewrite E. split; discriminate.
Qed.

(** X19: whatever the prefix, the four units are in the ratios 60, 24 and
    7: the duration for h is 60 times the one for m, the one for d 24
    times the one for h, the one for w 7 times the one for d. *)
Theorem convert_timeframe_units (prefix : list ascii) :
  exists m h d w,
    convert_timeframe (token prefix "m") = Ok m
    /\ convert_timeframe (token prefix "h") = Ok h
    /\ convert_timeframe (token prefix "d") = Ok d
    /\ convert_timeframe (token prefix "w") = Ok w
    /\ h = (60 * m)%Z /\ d = (24 * h)%Z /\ w = (7 * d)%Z.
Proof.
  rewrite !convert_timeframe_token by reflexivity.
  rewrite !convert_timeframe_str_snoc.
  destruct (py_int (str_of_string (string_of_list_ascii prefix))) as [n|e].
  - exists (n * 60000)%Z, (n * 60000 * 60)%Z, (n * 60000 * 60 * 24)%Z,
      (n * 60000 * 60 * 24 * 7)%Z.
    split; [reflexivity|]. split; [reflexivity|]. split; [reflexivity|].
    split; [reflexivity|]. lia.
  - exists 0%Z, 0%Z, 0%Z, 0%Z.
    split; [reflexivity|]. split; [reflexivity|]. split; [reflexivity|].
    split; [reflexivity|]. lia.
Qed.

(** ** The paging of [get_candles] *)

(** X20: for a positive duration the last timestamp of [get_candles] is
    the clock reading rounded down to a multiple of the duration. *)
Theorem last_timestamp_aligned (current_timestamp timeframe_ms : Z)
        (timeframe_str : string) :
  convert_timeframe timeframe_str = Ok timeframe_ms ->
  (0 < timeframe_ms)%Z ->
  exists last,
    last_timestamp_in_timeframe current_timestamp timeframe_str = Ok last
    /\ (last mod timeframe_ms = 0)%Z
    /\ (current_timestamp - timeframe_ms < last <= current_timestamp)%Z.
Proof.
  intros E Hpos. unfold last_timestamp_in_timeframe, py_mod. rewrite E. cbn [bind].
  destruct (Z.eqb_spec timeframe_ms 0) as [H0|_]; [lia|]. cbn [bind].
  eexists. split; [reflexivity|].
  pose proof (Z.mod_pos_bound current_timestamp timeframe_ms Hpos) as Hb.
  split; [|lia].
  rewrite Zminus_mod_idemp_r, Z.sub_diag. apply Z.mod_0_l. lia.
Qed.

Lemma last_timestamp_aligned_witness :
  convert_timeframe "4h" = Ok 14400000%Z
  /\ (0 < 14400000)%Z
  /\ exists last,
      last_timestamp_in_timeframe 1700000000000 "4h" = Ok last
      /\ (last mod 14400000 = 0)%Z
      /\ (1700000000000 - 14400000 < last <= 1700000000000)%Z.
Proof.
  split; [reflexivity|]. split; [lia|].
  apply (@last_timestamp_aligned 1700000000000 14400000 "4h"); [reflexivity | lia].
Defined.

Lemma get_candles_requests_positive (current_timestamp start_time timeframe_ms : Z)
      (timeframe_str : string) :
  convert_timeframe timeframe_str = Ok timeframe_ms ->
  (0 < timeframe_ms)%Z ->
  let last := (current_timestamp - current_timestamp mod timeframe_ms)%Z in
  let span := (timeframe_ms * 1000)%Z in
  let n := if (start_time <? last)%Z then ((last - start_time - 1) / span + 1)%Z
           else 0%Z in
  get_candles_requests current_timestamp start_time timeframe_str
  = Ok (map (fun k => ((last - (Z.of_nat k + 1) * span)%Z,
                       (last - Z.of_nat k * span + 1)%Z))
            (seq 0 (Z.to_nat n))).
Proof.
  intros E Hpos last span n.
  unfold get_candles_requests, py_mod. rewrite E. cbn [bind].
  destruct (Z.eqb_spec timeframe_ms 0) as [H0|_]; [lia|]. cbn [bind].
  fold last. unfold py_range_step.
  destruct (Z.eqb_spec (- timeframe_ms * 1000) 0) as [H0|_]; [lia|].
  destruct (Z.ltb_spec 0 (- timeframe_ms * 1000)) as [Hs|_]; [lia|].
  replace (- (- timeframe_ms * 1000))%Z with span by (unfold span; lia).
  fold n. cbn [bind]. rewrite map_map. f_equal.
  apply map_ext. intros k. unfold get_table_request, span. f_equal; ring.
Qed.

(** X21: for a positive duration the requests of [get_candles] cover the
    whole stretch that was asked for: when [start_time] is before the last
    aligned timestamp, every instant from [start_time] to that timestamp
    lies between the [startTime] and the [endTime] of some request; every
    request is [1000] durations wide and ends after [start_time]; and
    there is no request at all when [start_time] is not before the last
    aligned timestamp. *)
Theorem get_candles_requests_cover (current_timestamp start_time timeframe_ms : Z)
        (timeframe_str : string) :
  convert_timeframe timeframe_str = Ok timeframe_ms ->
  (0 < timeframe_ms)%Z ->
  exists last requests,
    last_timestamp_in_timeframe current_timestamp timeframe_str = Ok last
    /\ get_candles_requests current_timestamp start_time timeframe_str = Ok requests
    /\ (forall t, (start_time < last)%Z -> (start_time <= t <= last)%Z ->
                  exists w, In w requests /\ (fst w <= t < snd w)%Z)
    /\ (forall w, In w requests ->
                  (snd w - 1 - fst w = timeframe_ms * 1000)%Z
                  /\ (start_time < snd w - 1 <= last)%Z)
    /\ ((last <= start_time)%Z -> requests = []).
Proof.
  intros E Hpos.
  rewrite (@get_candles_requests_positive current_timestamp start_time
             timeframe_ms timeframe_str E Hpos).
  unfold last_timestamp_in_timeframe, py_mod. rewrite E. cbn [bind].
  destruct (Z.eqb_spec timeframe_ms 0) as [H0|_]; [lia|]. cbn [bind].
  set (last := (current_timestamp - current_timestamp mod timeframe_ms)%Z).
  set (span := (timeframe_ms * 1000)%Z).
  assert (Hspan : (0 < span)%Z) by (unfold span; lia).
  do 2 eexists. split; [reflexivity|]. split; [reflexivity|].
  split; [|split].
  - intros t Hlt Ht.
    destruct (Z.ltb_spec start_time last) as [_|]; [|lia].
    set (q := ((last - start_time - 1) / span)%Z).
    assert (Hq : (0 <= q)%Z) by (apply Z.div_pos; lia).
    set (k := if (t =? last)%Z then 0%Z else ((last - t - 1) / span)%Z).
    assert (Hk : (0 <= k <= q)%Z).
    { unfold k. destruct (Z.eqb_spec t last); [lia|].
      split; [apply Z.div_pos; lia|].
      apply Z.div_le_mono; lia. }
    assert (Hwin : (last - (k + 1) * span <= t <= last - k * span)%Z).
    { unfold k. destruct (Z.eqb_spec t last) as [->|Hne]; [lia|].
      pose proof (Z.div_mod (last - t - 1) span ltac:(lia)) as Hdm.
      pose proof (Z.mod_pos_bound (last - t - 1) span Hspan) as Hmb.
      nia. }
    exists ((last - (k + 1) * span)%Z, (last - k * span + 1)%Z). split.
    + apply in_map_iff. exists (Z.to_nat k). split.
      * rewrite Z2Nat.id by lia. reflexivity.
      * apply in_seq. lia.
    + cbn [fst snd]. lia.
  - intros w Hw. apply in_map_iff in Hw. destruct Hw as (k & <- & Hk).
    apply in_seq in Hk. cbn [fst snd].
    destruct (Z.ltb_spec start_time last) as [Hlt|Hge]; [|cbn in Hk; lia].
    split; [lia|].
    set (q := ((last - start_time - 1) / span)%Z) in *.
    assert (Hq : (0 <= q)%Z) by (apply Z.div_pos; lia).
    pose proof (Z.div_mod (last - start_time - 1) span ltac:(lia)) as Hdm.
    pose proof (Z.mod_pos_bound (last - start_time - 1) span Hspan) as Hmb.
    fold q in Hdm.
    assert (Hkq : (Z.of_nat k <= q)%Z) by lia.
    nia.
  - intros Hge. destruct (Z.ltb_spec start_time last); [lia | reflexivity].
Qed.

Lemma get_candles_requests_cover_witness :
  convert_timeframe "4h" = Ok 14400000%Z
  /\ (0 < 14400000)%Z
  /\ exists last requests,
      last_timestamp_in_timeframe 1700000000000 "4h" = Ok last
      /\ get_candles_requests 1700000000000 1650000000000 "4h" = Ok requests
      /\ (forall t, (1650000000000 < last)%Z -> (1650000000000 <= t <= last)%Z ->
                    exists w, In w requests /\ (fst w <= t < snd w)%Z)
      /\ (forall w, In w requests ->
                    (snd w - 1 - fst w = 14400000 * 1000)%Z
                    /\ (1650000000000 < snd w - 1 <= last)%Z)
      /\ ((last <= 1650000000000)%Z -> requests = []).
Proof.
  split; [reflexivity|]. split; [lia|].
  apply (@get_candles_requests_cover 1700000000000 1650000000000 14400000 "4h");
    [reflexivity | lia].
Defined.

Lemma nth_error_seq_0 (n i k : nat) : nth_error (seq 0 n) i = Some k -> k = i.
Proof.
  intros H.
  assert (Hi : (i < length (seq 0 n))%nat)
    by (apply nth_error_Some; rewrite H; discriminate).
  rewrite length_seq in Hi.
  pose proof (@nth_error_nth _ (seq 0 n) i k 0%nat H) as Hn.
  rewrite seq_nth in Hn by exact Hi. lia.
Qed.

(** X22: for a positive duration the requests go back in time in steps of
    [1000] durations: the first one ends one millisecond after the last
    aligned timestamp, and each further one ends one millisecond after the
    [startTime] of the one before, so that two consecutive requests both
    contain that [startTime]. *)
Theorem get_candles_requests_chain (current_timestamp start_time timeframe_ms : Z)
        (timeframe_str : string) (requests : list (Z * Z)) :
  convert_timeframe timeframe_str = Ok timeframe_ms ->
  (0 < timeframe_ms)%Z ->
  get_candles_requests current_timestamp start_time timeframe_str = Ok requests ->
  (forall w, nth_error requests 0 = Some w ->
             last_timestamp_in_timeframe current_timestamp timeframe_str
             = Ok (snd w - 1)%Z)
  /\ (forall i w w',
         nth_error requests i = Some w -> nth_error requests (S i) = Some w' ->
         snd w' = (fst w + 1)%Z /\ (fst w' <= fst w < snd w')%Z
         /\ (fst w <= fst w < snd w)%Z).
Proof.
  intros E Hpos Hreq.
  rewrite (@get_candles_requests_positive current_timestamp start_time
             timeframe_ms timeframe_str E Hpos) in Hreq.
  apply Ok_inj in Hreq. subst requests.
  set (last := (current_timestamp - current_timestamp mod timeframe_ms)%Z).
  set (span := (timeframe_ms * 1000)%Z).
  assert (Hspan : (0 < span)%Z) by (unfold span; lia).
  assert (Hnth : forall n i w,
             nth_error (map (fun k => ((last - (Z.of_nat k + 1) * span)%Z,
                                       (last - Z.of_nat k * span + 1)%Z))
                            (seq 0 n)) i = Some w ->
             w = ((last - (Z.of_nat i + 1) * span)%Z,
                  (last - Z.of_nat i * span + 1)%Z)).
  { intros n i w H. rewrite nth_error_map in H.
    destruct (nth_error (seq 0 n) i) as [k|] eqn:Ek; [|discriminate].
    apply nth_error_seq_0 in Ek. subst k.
    cbn [option_map] in H. apply (f_equal (fun o => match o with
                                                    | Some x => x
                                                    | None => w
                                                    end)) in H.
    symmetry. exact H. }
  split.
  - intros w Hw. apply Hnth in Hw. subst w. cbn [snd].
    unfold last_timestamp_in_timeframe, py_mod. rewrite E. cbn [bind].
    destruct (Z.eqb_spec timeframe_ms 0) as [H0|_]; [lia|]. cbn [bind].
    f_equal. fold last. cbn. lia.
  - intros i w w' Hw Hw'. apply Hnth in Hw. apply Hnth in Hw'. subst w w'.
    cbn [fst snd]. rewrite Nat2Z.inj_succ. nia.
Qed.

Lemma get_candles_requests_chain_witness :
  exists requests,
    convert_timeframe "4h" = Ok 14400000%Z
    /\ (0 < 14400000)%Z
    /\ get_candles_requests 1700000000000 1650000000000 "4h" = Ok requests
    /\ length requests = 4%nat
    /\ (forall w, nth_error requests 0 = Some w ->
                  last_timestamp_in_timeframe 1700000000000 "4h" = Ok (snd w - 1)%Z)
    /\ (forall i w w',
           nth_error requests i = Some w -> nth_error requests (S i) = Some w' ->
           snd w' = (fst w + 1)%Z /\ (fst w' <= fst w < snd w')%Z
           /\ (fst w <= fst w < snd w)%Z).
Proof.
  eexists.
  assert (E : get_candles_requests 1700000000000 1650000000000 "4h" = Ok _)
    by (vm_compute; reflexivity).
  split; [reflexivity|]. split; [lia|]. split; [exact E|]. split; [reflexivity|].
  apply (@get_candles_requests_chain 1700000000000 1650000000000 14400000 "4h" _
           eq_refl ltac:(lia) E).
Defined.
